(** * kicad-model-sync: synchronisation of 3D model entries in KiCAD footprints

    A shallow embedding of [kicad-model-sync-refactored.py] and the
    properties of its reconciliation step ([sync_models]) and of its file
    pipeline ([process_footprint_file], [find_footprint_files], [main]).

    Modelling choices:
    - Python objects keep their identity: [Model] and [Coordinate] objects
      live in a store indexed by locations, [footprint.models] is a list
      of references into it, and attribute assignment on a [Model] updates
      the store in place.
    - The numbers kiutils reads from a document, with Python's [==] and
      [is] on them, are parameters ([PyValue]); the examples instantiate
      them with float objects, an identity and an IEEE binary64 number.
      A vector comparison is the dataclass one: a tuple comparison, which
      takes one and the same object for equal before it asks [==].
    - Paths are POSIX paths ([os.path] is [posixpath]).
    - A raised exception is a [None] result. *)

From stdpp Require Import base option list gmap strings.
From Stdlib Require Import Ascii.
From Stdlib Require PrimFloat.

(** ** Strings: the [in] operator and [os.path.basename] *)

(** [contains tok s] is Python's [tok in s] on strings. *)
Fixpoint contains (tok s : string) : bool :=
  String.prefix tok s ||
  match s with
  | EmptyString => false
  | String _ s' => contains tok s'
  end.

(** [posixpath.basename]: [i = p.rfind('/') + 1; return p[i:]].  The
    accumulator is the suffix after the last separator seen so far. *)
Fixpoint basename_from (acc p : string) : string :=
  match p with
  | EmptyString => acc
  | String c p' =>
      if Ascii.eqb c "/"%char then basename_from p' p' else basename_from acc p'
  end.

Definition basename (p : string) : string := basename_from p p.

(** [posixpath.join(a, b)] for two components. *)
Definition ends_with_sep (a : string) : bool :=
  match String.get (String.length a - 1) a with
  | Some c => Ascii.eqb c "/"%char
  | None => false
  end.

Definition path_join (a b : string) : string :=
  if String.prefix "/" b then b
  else if bool_decide (a = "") || ends_with_sep a then a +:+ b
  else a +:+ "/" +:+ b.

(** [s.endswith(suf)]. *)
Definition endswith (s suf : string) : bool :=
  let n := String.length s in
  let k := String.length suf in
  (k <=? n)%nat && bool_decide (String.substring (n - k) k s = suf).

Definition third_party_token : string := "${KICAD_3RD_PARTY}".
Definition project_token : string := "${KIPRJMOD}".
Definition project_models_dir : string := "${KIPRJMOD}/3d-models/".

(** ** Data model *)

(** Object identity. *)
Abbreviation loc := positive (only parsing).

(** The objects kiutils stores in a [Coordinate] component or in
    [Model.opacity] (numbers read from the document): a [value] is a
    Python object, [py_eq] is [==] on two of them and [py_is] tells
    whether they are one and the same object ([is]).  The library is not
    part of this repository, so these are parameters of the
    development. *)
Class PyValue (value : Type) := {
  py_eq : value → value → bool;
  py_is : value → value → bool;
}.

Module Coordinate.
Record t (value : Type) := mk { X : value; Y : value; Z : value }.
Arguments mk {value}.
Arguments X {value}.
Arguments Y {value}.
Arguments Z {value}.

(** What a tuple comparison asks of each pair of items
    ([PyObject_RichCompareBool]): the same object, or else [==]. *)
Definition item_eq {value : Type} `{PyValue value} (a b : value) : bool :=
  py_is a b || py_eq a b.

(** The dataclass [__eq__] behind [!=]: [(self.X, self.Y, self.Z) ==
    (other.X, other.Y, other.Z)], a comparison of two tuples, item by
    item. *)
Definition eqb {value : Type} `{PyValue value} (a b : t value) : bool :=
  item_eq (X a) (X b) && item_eq (Y a) (Y b) && item_eq (Z a) (Z b).
End Coordinate.

Module Model.
Record t (value : Type) := mk {
  path : string;
  pos : loc;
  scale : loc;
  rotate : loc;
  hide : bool;
  opacity : value;
}.
Arguments mk {value}.
Arguments path {value}.
Arguments pos {value}.
Arguments scale {value}.
Arguments rotate {value}.
Arguments hide {value}.
Arguments opacity {value}.

Definition set_pos {value} (l : loc) (m : t value) : t value :=
  mk (path m) l (scale m) (rotate m) (hide m) (opacity m).
Definition set_scale {value} (l : loc) (m : t value) : t value :=
  mk (path m) (pos m) l (rotate m) (hide m) (opacity m).
Definition set_rotate {value} (l : loc) (m : t value) : t value :=
  mk (path m) (pos m) (scale m) l (hide m) (opacity m).
Definition set_hide {value} (b : bool) (m : t value) : t value :=
  mk (path m) (pos m) (scale m) (rotate m) b (opacity m).
Definition set_opacity {value} (v : value) (m : t value) : t value :=
  mk (path m) (pos m) (scale m) (rotate m) (hide m) v.
End Model.

(** The part of the Python heap [sync_models] works on: the [Coordinate]
    objects, the [Model] objects, and the list [footprint.models]. *)
Record state (value : Type) := State {
  coord_heap : gmap loc (Coordinate.t value);
  model_heap : gmap loc (Model.t value);
  models : list loc;
}.
Arguments State {value}.
Arguments coord_heap {value}.
Arguments model_heap {value}.
Arguments models {value}.

(** A model entry read through its references: what the document says. *)
Record ModelRecord (value : Type) := Record_ {
  r_path : string;
  r_position : Coordinate.t value;
  r_scale : Coordinate.t value;
  r_rotation : Coordinate.t value;
  r_hidden : bool;
  r_opacity : value;
}.
Arguments Record_ {value}.
Arguments r_path {value}.
Arguments r_position {value}.
Arguments r_scale {value}.
Arguments r_rotation {value}.
Arguments r_hidden {value}.
Arguments r_opacity {value}.

Section Sync.
Context {value : Type} `{PyValue value}.

Definition view (s : state value) (l : loc) : option (ModelRecord value) :=
  m ← model_heap s !! l;
  p ← coord_heap s !! Model.pos m;
  sc ← coord_heap s !! Model.scale m;
  r ← coord_heap s !! Model.rotate m;
  Some (Record_ (Model.path m) p sc r (Model.hide m) (Model.opacity m)).

Definition records (s : state value) : option (list (ModelRecord value)) :=
  mapM (view s) (models s).

(** Every entry of [footprint.models] is a live [Model] whose three
    vectors are live [Coordinate]s; every Python heap is such. *)
Definition wf (s : state value) : Prop :=
  Forall (λ l, is_Some (view s l)) (models s).

#[export] Instance wf_dec (s : state value) : Decision (wf s).
Proof. unfold wf. apply _. Defined.

(** *** The scan of lines 33-37 *)

(** The loop body assigns on every match; [tp] and [pl] are the two
    variables [third_party_model] and [project_model]. *)
Fixpoint scan (h : gmap loc (Model.t value)) (ls : list loc)
    (tp pl : option loc) : option (option loc * option loc) :=
  match ls with
  | [] => Some (tp, pl)
  | l :: ls' =>
      m ← h !! l;
      if contains third_party_token (Model.path m) then scan h ls' (Some l) pl
      else if contains project_token (Model.path m) then scan h ls' tp (Some l)
      else scan h ls' tp pl
  end.

Definition classify (s : state value) : option (option loc * option loc) :=
  scan (model_heap s) (models s) None None.

(** *** Object allocation and attribute access *)

Definition alloc_coord (c : Coordinate.t value) (s : state value)
    : loc * state value :=
  let l := fresh (dom (coord_heap s)) in
  (l, State (<[l := c]> (coord_heap s)) (model_heap s) (models s)).

(** [Coordinate(X=t.f.X, Y=t.f.Y, Z=t.f.Z)] for the vector attribute [f]
    of the model object [t]. *)
Definition copy_coord (f : Model.t value → loc) (t : loc) (s : state value)
    : option (loc * state value) :=
  m ← model_heap s !! t;
  c ← coord_heap s !! f m;
  Some (alloc_coord
          (Coordinate.mk (Coordinate.X c) (Coordinate.Y c) (Coordinate.Z c)) s).

(** [p.attr = v]: attribute assignment on the model object [p]. *)
Definition setattr (upd : Model.t value → Model.t value) (p : loc)
    (s : state value) : option (state value) :=
  m ← model_heap s !! p;
  Some (State (coord_heap s) (<[p := upd m]> (model_heap s)) (models s)).

(** *** Lines 44-65: no project model, create one

    [Model()] also builds three default [Coordinate]s; each is replaced
    by the copy before anything reads it, so they are left out of the
    store. *)

Definition create (t : loc) (s : state value) : option (bool * state value) :=
  tm ← model_heap s !! t;
  let new_path := project_models_dir +:+ basename (Model.path tm) in
  '(lp, s1) ← copy_coord Model.pos t s;
  '(lsc, s2) ← copy_coord Model.scale t s1;
  '(lr, s3) ← copy_coord Model.rotate t s2;
  tm' ← model_heap s3 !! t;
  let project_model :=
    Model.mk new_path lp lsc lr (Model.hide tm') (Model.opacity tm') in
  let l := fresh (dom (model_heap s3)) in
  Some (true,
        State (coord_heap s3) (<[l := project_model]> (model_heap s3))
              (models s3 ++ [l])).

(** *** Lines 68-103: both exist, bring the project model in line *)

(** One of the three vector attributes: compare the two [Coordinate]
    objects with [!=], and on a difference assign a new copy. *)
Definition sync_coord (f : Model.t value → loc)
    (set : loc → Model.t value → Model.t value) (t p : loc)
    (st : bool * state value) : option (bool * state value) :=
  let '(modified, s) := st in
  pm ← model_heap s !! p;
  tm ← model_heap s !! t;
  pc ← coord_heap s !! f pm;
  tc ← coord_heap s !! f tm;
  if negb (Coordinate.eqb pc tc) then
    '(l, s1) ← copy_coord f t s;
    s2 ← setattr (set l) p s1;
    Some (true, s2)
  else Some (modified, s).

Definition sync_hide (t p : loc) (st : bool * state value)
    : option (bool * state value) :=
  let '(modified, s) := st in
  pm ← model_heap s !! p;
  tm ← model_heap s !! t;
  if negb (Bool.eqb (Model.hide pm) (Model.hide tm)) then
    s1 ← setattr (Model.set_hide (Model.hide tm)) p s;
    Some (true, s1)
  else Some (modified, s).

Definition sync_opacity (t p : loc) (st : bool * state value)
    : option (bool * state value) :=
  let '(modified, s) := st in
  pm ← model_heap s !! p;
  tm ← model_heap s !! t;
  if negb (py_eq (Model.opacity pm) (Model.opacity tm)) then
    s1 ← setattr (Model.set_opacity (Model.opacity tm)) p s;
    Some (true, s1)
  else Some (modified, s).

Definition update (t p : loc) (s : state value) : option (bool * state value) :=
  st1 ← sync_coord Model.pos Model.set_pos t p (false, s);
  st2 ← sync_coord Model.scale Model.set_scale t p st1;
  st3 ← sync_coord Model.rotate Model.set_rotate t p st2;
  st4 ← sync_hide t p st3;
  sync_opacity t p st4.

(** *** [sync_models]

    The result is [None] only when a reference dangles, which no Python
    heap has (see [wf]); otherwise it is the returned flag and the heap
    after the call. *)
Definition sync_models (s : state value) : option (bool * state value) :=
  match models s with
  | [] => Some (false, s)
  | _ :: _ =>
      '(third_party_model, project_model) ← classify s;
      match third_party_model with
      | None => Some (false, s)
      | Some t =>
          match project_model with
          | None => create t s
          | Some p => update t p s
          end
      end
  end.
End Sync.

(** ** Specification-side definitions *)

(** The first and the last element of a sequence satisfying a test. *)
Definition first_with {A} (P : A → bool) (xs : list A) : option A :=
  List.find P xs.
Definition last_with {A} (P : A → bool) (xs : list A) : option A :=
  List.find P (reverse xs).

Definition has_third_party_token {value} (r : ModelRecord value) : bool :=
  contains third_party_token (r_path r).
Definition has_project_token {value} (r : ModelRecord value) : bool :=
  contains project_token (r_path r).
(** The test of the [elif] branch: reached only when the [if] test failed. *)
Definition project_only {value} (r : ModelRecord value) : bool :=
  negb (has_third_party_token r) && has_project_token r.

Inductive FieldName := position | scale | rotation | hidden | opacity.

Section SpecSide.
Context {value : Type} `{PyValue value}.

(** The same tests on a reference, read through the store. *)
Definition on_record (P : ModelRecord value → bool) (s : state value)
    (l : loc) : bool :=
  match view s l with Some r => P r | None => false end.

(** The record the create path derives from the third-party one. *)
Definition derived_record (tp : ModelRecord value) : ModelRecord value :=
  Record_ (project_models_dir +:+ basename (r_path tp))
          (r_position tp) (r_scale tp) (r_rotation tp)
          (r_hidden tp) (r_opacity tp).

(** The fields of [target] that [!=] tells apart from [source]'s. *)
Definition changed_fields (source target : ModelRecord value)
    : list FieldName :=
  (if Coordinate.eqb (r_position target) (r_position source)
   then [] else [position])
  ++ (if Coordinate.eqb (r_scale target) (r_scale source)
      then [] else [scale])
  ++ (if Coordinate.eqb (r_rotation target) (r_rotation source)
      then [] else [rotation])
  ++ (if Bool.eqb (r_hidden target) (r_hidden source) then [] else [hidden])
  ++ (if py_eq (r_opacity target) (r_opacity source) then [] else [opacity]).

(** [target] with exactly those fields taken from [source]. *)
Definition synced_record (source target : ModelRecord value)
    : ModelRecord value :=
  Record_ (r_path target)
    (if Coordinate.eqb (r_position target) (r_position source)
     then r_position target else r_position source)
    (if Coordinate.eqb (r_scale target) (r_scale source)
     then r_scale target else r_scale source)
    (if Coordinate.eqb (r_rotation target) (r_rotation source)
     then r_rotation target else r_rotation source)
    (if Bool.eqb (r_hidden target) (r_hidden source)
     then r_hidden target else r_hidden source)
    (if py_eq (r_opacity target) (r_opacity source)
     then r_opacity target else r_opacity source).

(** Every component of the vector is [==] to itself. *)
Definition components_self_equal (c : Coordinate.t value) : Prop :=
  py_eq (Coordinate.X c) (Coordinate.X c) = true
  ∧ py_eq (Coordinate.Y c) (Coordinate.Y c) = true
  ∧ py_eq (Coordinate.Z c) (Coordinate.Z c) = true.

(** Every number of the record is [==] to itself (none is a NaN). *)
Definition self_equal (r : ModelRecord value) : Prop :=
  components_self_equal (r_position r)
  ∧ components_self_equal (r_scale r)
  ∧ components_self_equal (r_rotation r)
  ∧ py_eq (r_opacity r) (r_opacity r) = true.

(** The three vector references of a model object. *)
Definition vector_refs (m : Model.t value) : list loc :=
  [Model.pos m; Model.scale m; Model.rotate m].
End SpecSide.

Section FrameSide.
Context {value : Type} `{PyValue value}.
(** A vector reference is the one the object had, or a [Coordinate]
    allocated since. *)
Definition same_or_new (ch : gmap loc (Coordinate.t value)) (a a' : loc) : Prop :=
  a' = a ∨ a' ∉ dom ch.

(** What a call that assigns attributes of the model object [p] only
    leaves in place. *)
Record frame (p : loc) (s s' : state value) : Prop := Frame {
  frame_coords : coord_heap s ⊆ coord_heap s';
  frame_models : ∀ l, l ≠ p → model_heap s' !! l = model_heap s !! l;
  frame_list : models s' = models s;
  frame_target : ∀ m, model_heap s !! p = Some m →
    ∃ m', model_heap s' !! p = Some m'
          ∧ Model.path m' = Model.path m
          ∧ Forall2 (same_or_new (coord_heap s)) (vector_refs m) (vector_refs m');
}.

(** The reference a vector attribute holds after a comparison: the one
    it held when the two vectors compared equal, a [Coordinate] that did
    not exist before otherwise. *)
Definition ref_after (ch : gmap loc (Coordinate.t value)) (equal : bool)
    (before after : loc) : Prop :=
  if equal then after = before else after ∉ dom ch.
End FrameSide.

(** ** The file pipeline *)

(** The footprint-document library (kiutils) as the pipeline uses it:
    [Footprint().from_file(path)] and [footprint.to_file(path)] over the
    files on disk.  [None] stands for a raised exception; a save that
    raises is taken to have written nothing. *)
Class Documents (value disk : Type) := {
  from_file : disk → string → option (state value);
  to_file : state value → string → disk → option disk;
}.

(** What [os.walk] sees below the search root: the file names of a
    directory and its named subdirectories. *)
#[warnings="-register-all"]
Inductive tree := Dir (files : list string) (subdirs : list (string * tree)).

(** [os.walk(root)], top-down: one [(root, files)] entry per directory. *)
Fixpoint walk (root : string) (t : tree) : list (string * list string) :=
  match t with
  | Dir files subdirs =>
      (root, files)
      :: flat_map (λ d, walk (path_join root (fst d)) (snd d)) subdirs
  end.

Definition find_footprint_files (directory : string) (t : tree) : list string :=
  flat_map
    (λ '(root, files),
       path_join root <$> filter (λ file, endswith file ".kicad_mod" = true) files)
    (walk directory t).

Record outcome (disk : Type) := Outcome {
  exit_status : nat;
  total_files : nat;
  modified_files : nat;
  disk_after : disk;
}.
Arguments Outcome {disk}.
Arguments exit_status {disk}.
Arguments total_files {disk}.
Arguments modified_files {disk}.
Arguments disk_after {disk}.

Section Pipeline.
Context {value disk : Type} `{PyValue value} `{Documents value disk}.

(** The [try] block of [process_footprint_file]; any exception ends in
    the handler, which returns [False]. *)
Definition process_footprint_file (filepath : string) (dry_run : bool)
    (d : disk) : bool * disk :=
  match from_file d filepath with
  | None => (false, d)
  | Some footprint =>
      match sync_models footprint with
      | None => (false, d)
      | Some (was_modified, footprint') =>
          if was_modified then
            if negb dry_run then
              match to_file footprint' filepath d with
              | Some d' => (true, d')
              | None => (false, d)
              end
            else (true, d)
          else (false, d)
      end
  end.

(** The [for filepath in footprint_files] loop with its counter. *)
Fixpoint process_all (footprint_files : list string) (dry_run : bool)
    (modified_files : nat) (d : disk) : nat * disk :=
  match footprint_files with
  | [] => (modified_files, d)
  | filepath :: rest =>
      let '(b, d') := process_footprint_file filepath dry_run d in
      process_all rest dry_run (if b then S modified_files else modified_files) d'
  end.

(** The value returned for each file, in order, the disk threaded
    through as the loop does. *)
Fixpoint file_results (footprint_files : list string) (dry_run : bool)
    (d : disk) : list bool :=
  match footprint_files with
  | [] => []
  | filepath :: rest =>
      let '(b, d') := process_footprint_file filepath dry_run d in
      b :: file_results rest dry_run d'
  end.

(** [main]: [getenv] is the value of GITHUB_WORKSPACE when set,
    [directory] and [dry_run] the parsed arguments.  Falling off the end
    of [main] after the early [return] is exit status 0. *)
Definition main (getenv : option string) (directory : string)
    (dry_run : bool) (t : tree) (d : disk) : outcome disk :=
  let base_dir := default directory getenv in
  let footprint_files := find_footprint_files base_dir t in
  match footprint_files with
  | [] => Outcome 0 0 0 d
  | _ :: _ =>
      let '(modified_files, d') := process_all footprint_files dry_run 0 d in
      if (0 <? modified_files)%nat && negb dry_run
      then Outcome 1 (length footprint_files) modified_files d'
      else Outcome 0 (length footprint_files) modified_files d'
  end.
End Pipeline.

Section Failures.
Context {value disk : Type} `{PyValue value} `{Documents value disk}.
(** The two ways a file can fail inside the [try] block. *)
Definition load_fails (d : disk) (filepath : string) : Prop :=
  from_file d filepath = None.
Definition save_fails (d : disk) (filepath : string) : Prop :=
  ∃ footprint footprint',
    from_file d filepath = Some footprint
    ∧ sync_models footprint = Some (true, footprint')
    ∧ to_file footprint' filepath d = None.
End Failures.

(** ** Concrete instances used in the examples *)

Module Examples.
Import (notations) PrimFloat.

(** A Python [float] object: its identity and its IEEE binary64 number.
    [==] compares the numbers, [is] the identities. *)
Record pyfloat := Float { obj_id : positive; number : PrimFloat.float }.

#[export] Instance float_value : PyValue pyfloat := {|
  py_eq a b := PrimFloat.eqb (number a) (number b);
  py_is a b := bool_decide (obj_id a = obj_id b);
|}.

(** The vector number [i], made of three float objects of its own, and
    the opacity object of the model number [i]. *)
Definition vec (i : positive) (x y z : PrimFloat.float) : Coordinate.t pyfloat :=
  Coordinate.mk (Float i~1~1 x) (Float i~1~0 y) (Float i~0~1 z).
Definition num (i : positive) (v : PrimFloat.float) : pyfloat := Float i~0~0 v.

(** A disk whose files are either unparsable or hold a footprint. *)
Inductive doc := Malformed | Parsed (s : state pyfloat).

#[export] Instance gmap_documents
    : Documents pyfloat (gmap string doc) := {|
  from_file d filepath :=
    match d !! filepath with
    | Some (Parsed s) => Some s
    | _ => None
    end;
  to_file s filepath d := Some (<[filepath := Parsed s]> d);
|}.

(** Section 8, create: one third-party entry only. *)
Definition fp_create : state pyfloat :=
  State (list_to_map [(1%positive, vec 1 1 2 3); (2%positive, vec 2 1 1 1);
                      (3%positive, vec 3 0 0 0)])
        (list_to_map
           [(1%positive,
             Model.mk "${KICAD_3RD_PARTY}/lib/part.step" 1 2 3 false (num 1 1.0))])
        [1%positive].

(** Section 8, update: only the position differs. *)
Definition fp_update : state pyfloat :=
  State (list_to_map [(1%positive, vec 1 5 0 0); (2%positive, vec 2 1 1 1);
                      (3%positive, vec 3 0 0 0); (4%positive, vec 4 0 0 0);
                      (5%positive, vec 5 1 1 1); (6%positive, vec 6 0 0 0)])
        (list_to_map
           [(1%positive,
             Model.mk "${KICAD_3RD_PARTY}/lib/part.step" 1 2 3 false (num 1 1.0));
            (2%positive,
             Model.mk "${KIPRJMOD}/3d-models/part.step" 4 5 6 false (num 2 1.0))])
        [1%positive; 2%positive].

(** Two third-party entries with different positions, then nothing else. *)
Definition fp_two_third_party : state pyfloat :=
  State (list_to_map [(1%positive, vec 1 1 2 3); (2%positive, vec 2 1 1 1);
                      (3%positive, vec 3 0 0 0); (4%positive, vec 4 9 9 9)])
        (list_to_map
           [(1%positive,
             Model.mk "${KICAD_3RD_PARTY}/lib/first.step" 1 2 3 false (num 1 1.0));
            (2%positive,
             Model.mk "${KICAD_3RD_PARTY}/lib/second.step" 4 2 3 false (num 2 1.0))])
        [1%positive; 2%positive].

(** A third-party path without any separator: its basename is the whole
    path, token included. *)
Definition fp_no_separator : state pyfloat :=
  State (list_to_map [(1%positive, vec 1 1 2 3); (2%positive, vec 2 1 1 1);
                      (3%positive, vec 3 0 0 0)])
        (list_to_map
           [(1%positive,
             Model.mk "${KICAD_3RD_PARTY}part.step" 1 2 3 false (num 1 1.0))])
        [1%positive].

(** One entry whose path carries both tokens. *)
Definition fp_both_tokens : state pyfloat :=
  State (list_to_map [(1%positive, vec 1 1 2 3); (2%positive, vec 2 1 1 1);
                      (3%positive, vec 3 0 0 0)])
        (list_to_map
           [(1%positive,
             Model.mk "${KICAD_3RD_PARTY}/${KIPRJMOD}/part.step" 1 2 3 false (num 1 1.0))])
        [1%positive].

(** A project entry and an unrelated one, no third-party entry. *)
Definition fp_project_only : state pyfloat :=
  State (list_to_map [(1%positive, vec 1 1 2 3); (2%positive, vec 2 1 1 1);
                      (3%positive, vec 3 0 0 0)])
        (list_to_map
           [(1%positive,
             Model.mk "${KIPRJMOD}/3d-models/part.step" 1 2 3 false (num 1 1.0));
            (2%positive, Model.mk "/opt/models/other.wrl" 1 2 3 true (num 2 0.5))])
        [1%positive; 2%positive].

(** The records of the section 8 scenarios. *)
Definition rec_third_party : ModelRecord pyfloat :=
  Record_ "${KICAD_3RD_PARTY}/lib/part.step"
          (vec 1 1 2 3) (vec 2 1 1 1) (vec 3 0 0 0) false (num 1 1.0).
Definition rec_created : ModelRecord pyfloat :=
  Record_ "${KIPRJMOD}/3d-models/part.step"
          (vec 1 1 2 3) (vec 2 1 1 1) (vec 3 0 0 0) false (num 1 1.0).
Definition rec_source : ModelRecord pyfloat :=
  Record_ "${KICAD_3RD_PARTY}/lib/part.step"
          (vec 1 5 0 0) (vec 2 1 1 1) (vec 3 0 0 0) false (num 1 1.0).
Definition rec_target : ModelRecord pyfloat :=
  Record_ "${KIPRJMOD}/3d-models/part.step"
          (vec 4 0 0 0) (vec 5 1 1 1) (vec 6 0 0 0) false (num 2 1.0).
Definition rec_updated : ModelRecord pyfloat :=
  Record_ "${KIPRJMOD}/3d-models/part.step"
          (vec 1 5 0 0) (vec 5 1 1 1) (vec 6 0 0 0) false (num 2 1.0).
Definition rec_both : ModelRecord pyfloat :=
  Record_ "${KICAD_3RD_PARTY}/${KIPRJMOD}/part.step"
          (vec 1 1 2 3) (vec 2 1 1 1) (vec 3 0 0 0) false (num 1 1.0).

(** [fp_update] after one reconciliation. *)
Definition fp_update_after : state pyfloat :=
  Eval vm_compute in
    match sync_models fp_update with
    | Some (_, s) => s
    | None => fp_update
    end.

(** A directory with a malformed document and one needing an update. *)
Definition dir_two : tree := Dir ["bad.kicad_mod"; "good.kicad_mod"; "README.md"] [].
Definition disk_two : gmap string doc :=
  list_to_map [("lib/bad.kicad_mod", Malformed);
               ("lib/good.kicad_mod", Parsed fp_update)].
End Examples.

Import Examples.

(** ** Further specification-side definitions *)

Section Agreement.
Context {value : Type} `{PyValue value}.

(** A field of the target is in line with the source when it is the
    very value of the source or [==] to it. *)
Definition in_line (source target : ModelRecord value) : Prop :=
  (r_position target = r_position source
   ∨ Coordinate.eqb (r_position target) (r_position source) = true)
  ∧ (r_scale target = r_scale source
     ∨ Coordinate.eqb (r_scale target) (r_scale source) = true)
  ∧ (r_rotation target = r_rotation source
     ∨ Coordinate.eqb (r_rotation target) (r_rotation source) = true)
  ∧ r_hidden target = r_hidden source
  ∧ (r_opacity target = r_opacity source
     ∨ py_eq (r_opacity target) (r_opacity source) = true).

(** An entry of the list whose path carries one of the two tokens. *)
Definition bears_token (s : state value) (l : loc) : bool :=
  on_record (λ r, has_third_party_token r || has_project_token r) s l.
End Agreement.

(** ** [sync_models] with its console output

    The same function with the [print] calls kept: the third component is
    the list of lines written, in order. *)

Definition msg_no_models : string := "  No model sections found in file".
Definition msg_no_third_party : string :=
  "  No KICAD_3RD_PARTY model found in file".
Definition msg_added (new_path : string) : string :=
  "  Added project model: " +:+ new_path.

(** The line printed when a field is brought in line (lines 77-101). *)
Definition field_message (f : FieldName) : string :=
  match f with
  | position => "  Updated Coordinate"
  | scale => "  Updated scale"
  | rotation => "  Updated rotation"
  | hidden => "  Updated visibility"
  | opacity => "  Updated opacity"
  end.

Section SyncOutput.
Context {value : Type} `{PyValue value}.

Definition create_io (t : loc) (s : state value)
    : option (bool * state value * list string) :=
  tm ← model_heap s !! t;
  let new_path := project_models_dir +:+ basename (Model.path tm) in
  '(lp, s1) ← copy_coord Model.pos t s;
  '(lsc, s2) ← copy_coord Model.scale t s1;
  '(lr, s3) ← copy_coord Model.rotate t s2;
  tm' ← model_heap s3 !! t;
  let project_model :=
    Model.mk new_path lp lsc lr (Model.hide tm') (Model.opacity tm') in
  let l := fresh (dom (model_heap s3)) in
  Some (true,
        State (coord_heap s3) (<[l := project_model]> (model_heap s3))
              (models s3 ++ [l]),
        [msg_added new_path]).

Definition sync_coord_io (line : string) (f : Model.t value → loc)
    (set : loc → Model.t value → Model.t value) (t p : loc)
    (st : bool * state value * list string)
    : option (bool * state value * list string) :=
  let '(modified, s, out) := st in
  pm ← model_heap s !! p;
  tm ← model_heap s !! t;
  pc ← coord_heap s !! f pm;
  tc ← coord_heap s !! f tm;
  if negb (Coordinate.eqb pc tc) then
    '(l, s1) ← copy_coord f t s;
    s2 ← setattr (set l) p s1;
    Some (true, s2, out ++ [line])
  else Some (modified, s, out).

Definition sync_hide_io (t p : loc) (st : bool * state value * list string)
    : option (bool * state value * list string) :=
  let '(modified, s, out) := st in
  pm ← model_heap s !! p;
  tm ← model_heap s !! t;
  if negb (Bool.eqb (Model.hide pm) (Model.hide tm)) then
    s1 ← setattr (Model.set_hide (Model.hide tm)) p s;
    Some (true, s1, out ++ ["  Updated visibility"])
  else Some (modified, s, out).

Definition sync_opacity_io (t p : loc) (st : bool * state value * list string)
    : option (bool * state value * list string) :=
  let '(modified, s, out) := st in
  pm ← model_heap s !! p;
  tm ← model_heap s !! t;
  if negb (py_eq (Model.opacity pm) (Model.opacity tm)) then
    s1 ← setattr (Model.set_opacity (Model.opacity tm)) p s;
    Some (true, s1, out ++ ["  Updated opacity"])
  else Some (modified, s, out).

Definition update_io (t p : loc) (s : state value)
    : option (bool * state value * list string) :=
  st1 ← sync_coord_io "  Updated Coordinate" Model.pos Model.set_pos t p
         (false, s, []);
  st2 ← sync_coord_io "  Updated scale" Model.scale Model.set_scale t p st1;
  st3 ← sync_coord_io "  Updated rotation" Model.rotate Model.set_rotate t p st2;
  st4 ← sync_hide_io t p st3;
  sync_opacity_io t p st4.

Definition sync_models_io (s : state value)
    : option (bool * state value * list string) :=
  match models s with
  | [] => Some (false, s, [msg_no_models])
  | _ :: _ =>
      '(third_party_model, project_model) ← classify s;
      match third_party_model with
      | None => Some (false, s, [msg_no_third_party])
      | Some t =>
          match project_model with
          | None => create_io t s
          | Some p => update_io t p s
          end
      end
  end.
End SyncOutput.

(** ** Further pipeline definitions *)

(** Every file name below a directory, at any depth. *)
Fixpoint all_files (t : tree) : list string :=
  match t with
  | Dir files subdirs => files ++ flat_map (λ d, all_files (snd d)) subdirs
  end.

Definition is_footprint_file (file : string) : bool :=
  endswith file ".kicad_mod".

(** What one [(root, files)] entry of the walk contributes. *)
Definition found_in (entry : string * list string) : list string :=
  path_join entry.1 <$> filter (λ file, endswith file ".kicad_mod" = true) entry.2.

(** A footprint file of the tree and the path it has under [root]. *)
Inductive footprint_at : string → tree → string → Prop :=
| footprint_here root files subdirs file :
    file ∈ files → is_footprint_file file = true →
    footprint_at root (Dir files subdirs) (path_join root file)
| footprint_below root files subdirs name sub filepath :
    (name, sub) ∈ subdirs →
    footprint_at (path_join root name) sub filepath →
    footprint_at root (Dir files subdirs) filepath.

(** A name as a directory listing gives it: not empty, no separator. *)
Definition is_name (name : string) : bool :=
  negb (bool_decide (name = "")) && negb (contains "/" name).

(** A tree as a file system has them: in every directory the names are
    names, no file is listed twice and no subdirectory is. *)
Fixpoint tidy (t : tree) : bool :=
  match t with
  | Dir files subdirs =>
      forallb is_name files && bool_decide (NoDup files)
      && forallb (λ d, is_name (fst d)) subdirs
      && bool_decide (NoDup (fst <$> subdirs))
      && forallb (λ d, tidy (snd d)) subdirs
  end.

Section Laws.
Context {value disk : Type} `{Documents value disk}.

(** What one expects of a document store: a saved footprint loads back,
    and saving one file leaves what the others load as. *)
Definition save_then_load : Prop :=
  ∀ (footprint : state value) filepath (d d' : disk),
    to_file footprint filepath d = Some d' →
    from_file d' filepath = Some footprint.
Definition save_is_local : Prop :=
  ∀ (footprint : state value) filepath (d d' : disk) other,
    to_file footprint filepath d = Some d' → other ≠ filepath →
    from_file d' other = from_file d other.
End Laws.

Module MoreExamples.
Import (notations) PrimFloat.

(** Every field of the project entry differs from the third-party one. *)
Definition fp_all_differ : state pyfloat :=
  State (list_to_map [(1%positive, vec 1 5 0 0); (2%positive, vec 2 2 2 2);
                      (3%positive, vec 3 0 0 90); (4%positive, vec 4 0 0 0);
                      (5%positive, vec 5 1 1 1); (6%positive, vec 6 0 0 0)])
        (list_to_map
           [(1%positive,
             Model.mk "${KICAD_3RD_PARTY}/lib/part.step" 1 2 3 true (num 1 0.5));
            (2%positive,
             Model.mk "${KIPRJMOD}/3d-models/part.step" 4 5 6 false (num 2 1.0))])
        [1%positive; 2%positive].

(** A third-party path that ends in a separator. *)
Definition fp_trailing_sep : state pyfloat :=
  State (list_to_map [(1%positive, vec 1 1 2 3); (2%positive, vec 2 1 1 1);
                      (3%positive, vec 3 0 0 0)])
        (list_to_map
           [(1%positive,
             Model.mk "${KICAD_3RD_PARTY}/lib/" 1 2 3 false (num 1 1.0))])
        [1%positive].

Definition rec_trailing_sep : ModelRecord pyfloat :=
  Record_ "${KICAD_3RD_PARTY}/lib/"
          (vec 1 1 2 3) (vec 2 1 1 1) (vec 3 0 0 0) false (num 1 1.0).

(** An unrelated entry between a third-party and a project entry. *)
Definition fp_with_unrelated : state pyfloat :=
  State (list_to_map [(1%positive, vec 1 5 0 0); (2%positive, vec 2 1 1 1);
                      (3%positive, vec 3 0 0 0); (4%positive, vec 4 0 0 0)])
        (list_to_map
           [(1%positive,
             Model.mk "${KICAD_3RD_PARTY}/lib/part.step" 1 2 3 false (num 1 1.0));
            (2%positive, Model.mk "/opt/models/other.wrl" 4 2 3 false (num 2 1.0));
            (3%positive,
             Model.mk "${KIPRJMOD}/3d-models/part.step" 4 2 3 false (num 3 1.0))])
        [1%positive; 2%positive; 3%positive].

(** A tree with footprints at two depths and other files. *)
Definition dir_nested : tree :=
  Dir ["a.kicad_mod"; "notes.txt"]
      [("sub", Dir ["b.kicad_mod"] [("deep", Dir ["c.kicad_mod"; "c.step"] [])]);
       ("empty", Dir [] [])].

(** A tree without any footprint file. *)
Definition dir_no_footprints : tree :=
  Dir ["README.md"] [("models", Dir ["part.step"] [])].

(** A third-party position holding a NaN, and a project entry. *)
Definition fp_nan_vector : state pyfloat :=
  State (list_to_map [(1%positive, vec 1 PrimFloat.nan 0 0);
                      (2%positive, vec 2 1 1 1); (3%positive, vec 3 0 0 0);
                      (4%positive, vec 4 0 0 0); (5%positive, vec 5 1 1 1);
                      (6%positive, vec 6 0 0 0)])
        (list_to_map
           [(1%positive,
             Model.mk "${KICAD_3RD_PARTY}/lib/part.step" 1 2 3 false (num 1 1.0));
            (2%positive,
             Model.mk "${KIPRJMOD}/3d-models/part.step" 4 5 6 false (num 2 1.0))])
        [1%positive; 2%positive].

Definition fp_nan_vector_after : state pyfloat :=
  Eval vm_compute in
    match sync_models fp_nan_vector with
    | Some (_, s) => s
    | None => fp_nan_vector
    end.

(** Both opacities are NaN, everything else agrees. *)
Definition fp_nan_opacity : state pyfloat :=
  State (list_to_map [(1%positive, vec 1 0 0 0); (2%positive, vec 2 1 1 1);
                      (3%positive, vec 3 0 0 0); (4%positive, vec 4 0 0 0);
                      (5%positive, vec 5 1 1 1); (6%positive, vec 6 0 0 0)])
        (list_to_map
           [(1%positive,
             Model.mk "${KICAD_3RD_PARTY}/lib/part.step" 1 2 3 false
                      (num 1 PrimFloat.nan));
            (2%positive,
             Model.mk "${KIPRJMOD}/3d-models/part.step" 4 5 6 false
                      (num 2 PrimFloat.nan))])
        [1%positive; 2%positive].

(** The two positions differ in the last bit of [X]. *)
Definition fp_last_bit : state pyfloat :=
  State (list_to_map [(1%positive, vec 1 0x1.0000000000001p+0 2 3);
                      (2%positive, vec 2 1 1 1); (3%positive, vec 3 0 0 0);
                      (4%positive, vec 4 1 2 3); (5%positive, vec 5 1 1 1);
                      (6%positive, vec 6 0 0 0)])
        (list_to_map
           [(1%positive,
             Model.mk "${KICAD_3RD_PARTY}/lib/part.step" 1 2 3 false (num 1 1.0));
            (2%positive,
             Model.mk "${KIPRJMOD}/3d-models/part.step" 4 5 6 false (num 2 1.0))])
        [1%positive; 2%positive].

(** The two positions differ in the sign of a zero. *)
Definition fp_signed_zero : state pyfloat :=
  State (list_to_map [(1%positive, vec 1 (-0) 2 3);
                      (2%positive, vec 2 1 1 1); (3%positive, vec 3 0 0 0);
                      (4%positive, vec 4 0 2 3); (5%positive, vec 5 1 1 1);
                      (6%positive, vec 6 0 0 0)])
        (list_to_map
           [(1%positive,
             Model.mk "${KICAD_3RD_PARTY}/lib/part.step" 1 2 3 false (num 1 1.0));
            (2%positive,
             Model.mk "${KIPRJMOD}/3d-models/part.step" 4 5 6 false (num 2 1.0))])
        [1%positive; 2%positive].
End MoreExamples.

Import MoreExamples.

(** * Properties *)

(** ** Strings *)

Lemma append_cons c s r : String c s +:+ r = String c (s +:+ r).
Proof. reflexivity. Qed.

Lemma prefix_spec tok s :
  String.prefix tok s = true ↔ ∃ r, s = tok +:+ r.
Proof.
  revert s. induction tok as [|c tok IH]; intros s.
  - destruct s; simpl; (split; [eauto | done]).
  - destruct s as [|c' s]; simpl.
    + split; [done | intros [r Hr]; discriminate].
    + destruct (Ascii.ascii_dec c c') as [->|Hne].
      * rewrite IH. split; intros [r Hr]; exists r;
          rewrite append_cons in *; congruence.
      * split; [done | intros [r Hr]; rewrite append_cons in Hr; congruence].
Qed.

(** [contains] is the substring test. *)
Lemma contains_spec tok s :
  contains tok s = true ↔ ∃ l r, s = l +:+ tok +:+ r.
Proof.
  induction s as [|c s IH]; cbn [contains].
  - rewrite orb_false_r, prefix_spec. split.
    + intros [r Hr]. exists "", r. done.
    + intros (l & r & Hlr). destruct l; [eauto | discriminate].
  - rewrite orb_true_iff, prefix_spec, IH. split.
    + intros [[r Hr] | (l & r & Hlr)].
      * exists "", r. done.
      * exists (String c l), r. rewrite append_cons. congruence.
    + intros (l & r & Hlr). destruct l as [|c' l].
      * left. eauto.
      * right. exists l, r. rewrite append_cons in Hlr. congruence.
Qed.

Lemma basename_from_no_sep acc p :
  contains "/" p = false → basename_from acc p = acc.
Proof.
  induction p as [|c p IH]; cbn [contains basename_from]; [done |].
  intros [Hp Hc]%orb_false_elim.
  destruct (Ascii.eqb_spec c "/") as [->|Hne]; [| by apply IH].
  rewrite (proj2 (prefix_spec "/" (String "/" p))) in Hp; [done | by exists p].
Qed.

(** A path without a separator is its own basename. *)
Lemma basename_no_sep f : contains "/" f = false → basename f = f.
Proof. apply basename_from_no_sep. Qed.

Lemma basename_from_sep acc d f :
  contains "/" f = false → basename_from acc (d +:+ "/" +:+ f) = f.
Proof.
  intros Hf. revert acc. induction d as [|c d IH]; intros acc.
  - simpl. by apply basename_from_no_sep.
  - rewrite append_cons. simpl. destruct (Ascii.eqb c "/"); apply IH.
Qed.

(** The basename is the component after the last separator. *)
Lemma basename_sep d f :
  contains "/" f = false → basename (d +:+ "/" +:+ f) = f.
Proof. apply basename_from_sep. Qed.

Lemma derived_path_project b :
  contains project_token (project_models_dir +:+ b) = true.
Proof. reflexivity. Qed.

Lemma derived_path_third_party b :
  contains third_party_token (project_models_dir +:+ b)
  = contains third_party_token b.
Proof. reflexivity. Qed.

(** ** The scan *)

Section SyncProps.
Context {value : Type} `{PyValue value}.
Implicit Types (s : state value) (r : ModelRecord value).

Lemma view_Some s l r :
  view s l = Some r ↔
  ∃ m, model_heap s !! l = Some m
       ∧ coord_heap s !! Model.pos m = Some (r_position r)
       ∧ coord_heap s !! Model.scale m = Some (r_scale r)
       ∧ coord_heap s !! Model.rotate m = Some (r_rotation r)
       ∧ Model.path m = r_path r ∧ Model.hide m = r_hidden r
       ∧ Model.opacity m = r_opacity r.
Proof.
  unfold view. split.
  - intros Hv. destruct (model_heap s !! l) as [m|]; [|done]. simpl in Hv.
    destruct (coord_heap s !! Model.pos m) as [a|] eqn:Ha; [|done].
    destruct (coord_heap s !! Model.scale m) as [b|] eqn:Hb; [|done].
    destruct (coord_heap s !! Model.rotate m) as [c|] eqn:Hc; [|done].
    simpl in Hv. injection Hv as <-. by exists m.
  - intros (m & -> & Hp & Hs & Hr & Hpath & Hh & Ho). simpl.
    rewrite Hp, Hs, Hr. simpl. destruct r; simpl in *. by subst.
Qed.

Lemma scan_app (h : gmap loc (Model.t value)) l1 l2 tp pl :
  scan h (l1 ++ l2) tp pl = st ← scan h l1 tp pl; scan h l2 st.1 st.2.
Proof.
  revert tp pl. induction l1 as [|l l1 IH]; intros tp pl; [done |].
  simpl. destruct (h !! l) as [m|]; [|done]. simpl.
  repeat case_match; apply IH.
Qed.

Lemma last_with_snoc {A} (P : A → bool) xs x :
  last_with P (xs ++ [x]) = if P x then Some x else last_with P xs.
Proof. unfold last_with. by rewrite reverse_snoc. Qed.

(** The scan keeps, for each role, the last reference that qualifies. *)
Lemma scan_last_with s ls tp pl :
  Forall (λ l, is_Some (view s l)) ls →
  scan (model_heap s) ls tp pl
  = Some (from_option Some tp (last_with (on_record has_third_party_token s) ls),
          from_option Some pl (last_with (on_record project_only s) ls)).
Proof.
  induction ls as [|l ls IH] using rev_ind; intros Hls; [done |].
  apply Forall_app in Hls as [Hls Hl]. apply Forall_singleton in Hl as [r Hr].
  assert (Ho : ∀ P, on_record P s l = P r)
    by (intros P; unfold on_record; by rewrite Hr).
  rewrite scan_app, IH by done. simpl. rewrite !last_with_snoc, !Ho.
  apply view_Some in Hr as (m & -> & _ & _ & _ & Hpath & _). simpl.
  unfold project_only, has_third_party_token, has_project_token.
  rewrite Hpath.
  destruct (contains third_party_token (r_path r)); [done |].
  by destruct (contains project_token (r_path r)).
Qed.

(** Records of a well-formed footprint, entry by entry. *)
Lemma records_Some s rs :
  records s = Some rs ↔ Forall2 (λ l r, view s l = Some r) (models s) rs.
Proof. apply mapM_Some. Qed.

Lemma records_wf s rs : records s = Some rs → wf s.
Proof.
  rewrite records_Some. unfold wf. intros Hrs.
  induction Hrs; constructor; eauto.
Qed.

Lemma wf_records s : wf s → ∃ rs, records s = Some rs.
Proof.
  unfold wf. intros Hwf. apply mapM_is_Some in Hwf. exact Hwf.
Qed.
End SyncProps.

(** What the scan binds on a well-formed footprint. *)
Lemma classify_spec {value : Type} `{PyValue value} (s : state value) :
  wf s →
  classify s
  = Some (last_with (on_record has_third_party_token s) (models s),
          last_with (on_record project_only s) (models s)).
Proof.
  intros Hwf. unfold classify. rewrite (scan_last_with s) by exact Hwf.
  by do 2 destruct (last_with _ _).
Qed.

(** C1 (as amended).  On every well-formed footprint the scan binds, as
    third-party record, the LAST entry whose path contains the third-party
    token and, as project-local record, the LAST entry whose path contains
    the project token and not the third-party token; entries before them
    with the same token are shadowed. *)
Theorem classify_last_match {value : Type} `{PyValue value} (s : state value) :
  wf s →
  classify s
  = Some (last_with (on_record has_third_party_token s) (models s),
          last_with (on_record project_only s) (models s)).
Proof.
  intros Hwf. unfold classify.
  rewrite (scan_last_with s (models s) None None Hwf).
  destruct (last_with (on_record has_third_party_token s) (models s));
    destruct (last_with (on_record project_only s) (models s)); reflexivity.
Qed.

Lemma wf_two_third_party : wf fp_two_third_party.
Proof. by apply (bool_decide_unpack _); vm_compute. Qed.

Lemma classify_last_match_witness :
  classify fp_two_third_party = Some (Some 2%positive, None).
Proof.
  rewrite (classify_last_match fp_two_third_party); [reflexivity |].
  by apply (bool_decide_unpack _); vm_compute.
Defined.

(** C1 (as stated) fails: with two third-party entries the scan binds the
    second, not the first. *)
Lemma classify_first_match_counterexample :
  ¬ ∀ s : state pyfloat, wf s →
      classify s
      = Some (first_with (on_record has_third_party_token s) (models s),
              first_with (on_record has_project_token s) (models s)).
Proof.
  intros Hc. specialize (Hc fp_two_third_party wf_two_third_party).
  vm_compute in Hc. discriminate Hc.
Qed.

(** ** The store *)

Section StoreProps.
Context {value : Type} `{PyValue value}.
Implicit Types (s : state value) (r : ModelRecord value).

Lemma frame_refl p s : frame p s s.
Proof.
  split; try done. intros m Hm. exists m. split_and!; try done.
  repeat constructor.
Qed.

Lemma same_or_new_trans (ch ch' : gmap loc (Coordinate.t value)) a a' a'' :
  ch ⊆ ch' → same_or_new ch a a' → same_or_new ch' a' a'' →
  same_or_new ch a a''.
Proof.
  intros Hsub H1 [-> | Hn]; [done |]. right.
  intros Hin. apply Hn. by apply (subseteq_dom ch ch').
Qed.

Lemma frame_trans p s1 s2 s3 : frame p s1 s2 → frame p s2 s3 → frame p s1 s3.
Proof.
  intros [Hc1 Hm1 Hl1 Ht1] [Hc2 Hm2 Hl2 Ht2]. split.
  - by etrans.
  - intros l Hl. by rewrite Hm2, Hm1.
  - congruence.
  - intros m Hm. destruct (Ht1 m Hm) as (m' & Hm' & Hp' & Hv').
    destruct (Ht2 m' Hm') as (m'' & Hm'' & Hp'' & Hv'').
    exists m''. split_and!; [done | congruence |].
    unfold vector_refs in *.
    repeat match goal with
           | H : Forall2 _ (_ :: _) (_ :: _) |- _ =>
               apply Forall2_cons in H as [? H]
           end.
    repeat (constructor; [by eapply same_or_new_trans |]). constructor.
Qed.

(** Objects other than the target, and everything they refer to, read
    the same after the call. *)
Lemma frame_view p s s' l r :
  frame p s s' → l ≠ p → view s l = Some r → view s' l = Some r.
Proof.
  intros [Hc Hm _ _] Hl. rewrite !view_Some.
  intros (m & Hml & Hp & Hs & Hr & Hrest). exists m.
  rewrite Hm by done. destruct Hrest as (? & ? & ?).
  split_and!; try done; by eapply lookup_weaken.
Qed.

Lemma copy_eta (c : Coordinate.t value) :
  Coordinate.mk (Coordinate.X c) (Coordinate.Y c) (Coordinate.Z c) = c.
Proof. by destruct c. Qed.

Lemma fresh_coord_None (ch : gmap loc (Coordinate.t value)) :
  ch !! fresh (dom ch) = None.
Proof. apply not_elem_of_dom, is_fresh. Qed.

Lemma fresh_coord_ne (ch : gmap loc (Coordinate.t value)) a c :
  ch !! a = Some c → a ≠ fresh (dom ch).
Proof. intros Ha ->. by rewrite fresh_coord_None in Ha. Qed.
End StoreProps.

Section StepProps.
Context {value : Type} `{PyValue value}.
Implicit Types (s : state value) (r : ModelRecord value).

Lemma record_eta r :
  Record_ (r_path r) (r_position r) (r_scale r) (r_rotation r)
          (r_hidden r) (r_opacity r) = r.
Proof. by destruct r. Qed.

(** Assigning attributes of [p] that keep its path, with vector
    references that are old or new, stays within the frame. *)
Lemma frame_assign p s pm pm' ch' :
  model_heap s !! p = Some pm →
  coord_heap s ⊆ ch' →
  Model.path pm' = Model.path pm →
  Forall2 (same_or_new (coord_heap s)) (vector_refs pm) (vector_refs pm') →
  frame p s (State ch' (<[p := pm']> (model_heap s)) (models s)).
Proof.
  intros Hpm Hsub Hpath Hrefs. split; simpl; [done | | done |].
  - intros l Hl. by rewrite lookup_insert_ne.
  - intros m Hm. exists pm'. rewrite lookup_insert_eq.
    assert (m = pm) as -> by congruence. done.
Qed.

Lemma same_refl (ch : gmap loc (Coordinate.t value)) a : same_or_new ch a a.
Proof. by left. Qed.

Lemma new_fresh (ch : gmap loc (Coordinate.t value)) a :
  same_or_new ch a (fresh (dom ch)).
Proof. right. apply is_fresh. Qed.

Lemma insert_fresh_subseteq (ch : gmap loc (Coordinate.t value)) c :
  ch ⊆ <[fresh (dom ch) := c]> ch.
Proof. apply insert_subseteq, fresh_coord_None. Qed.

Ltac read_views Ht Hp :=
  pose proof Ht as (? & ? & ? & ? & ? & ? & ? & ?)%view_Some;
  pose proof Hp as (? & ? & ? & ? & ? & ? & ? & ?)%view_Some.

Ltac use_lookups :=
  repeat (simpl;
          match goal with
          | H : _ !! _ = Some _ |- _ => rewrite H
          | H : Model.hide _ = _ |- _ => rewrite H
          | H : Model.opacity _ = _ |- _ => rewrite H
          end);
  simpl.

Ltac view_after_assign :=
  apply view_Some; eexists; simpl; rewrite lookup_insert_eq;
  split; [done |]; simpl;
  rewrite ?lookup_insert_eq, ?lookup_insert_ne
    by (symmetry; by eapply fresh_coord_ne);
  done.

Ltac unchanged_case :=
  eexists; rewrite record_eta;
  split_and!; [done | done | apply frame_refl | done].

Ltac sync_coord_tac :=
  intros Htp Ht Hp; read_views Ht Hp;
  unfold sync_coord; use_lookups;
  match goal with
  | |- context [Coordinate.eqb ?a ?b] =>
      destruct (Coordinate.eqb a b) eqn:Heq; simpl
  end;
  [ unchanged_case
  | unfold copy_coord, setattr, alloc_coord; use_lookups; rewrite copy_eta;
    eexists; split; [reflexivity |]; split_and!; [| | done];
    [ view_after_assign
    | eapply frame_assign;
      [eassumption | apply insert_fresh_subseteq | done |];
      unfold vector_refs; simpl;
      repeat (constructor; [apply same_refl || apply new_fresh |]);
      constructor ] ].

(** The three vector attributes, one lemma each: the flag, what the
    target reads as afterwards, and the frame. *)
Lemma sync_pos_spec t p s b tr pr :
  t ≠ p → view s t = Some tr → view s p = Some pr →
  ∃ s',
    sync_coord Model.pos Model.set_pos t p (b, s)
    = Some (if Coordinate.eqb (r_position pr) (r_position tr)
            then b else true, s')
    ∧ view s' p
      = Some (Record_ (r_path pr)
                (if Coordinate.eqb (r_position pr) (r_position tr)
                 then r_position pr else r_position tr)
                (r_scale pr) (r_rotation pr) (r_hidden pr) (r_opacity pr))
    ∧ frame p s s'
    ∧ (Coordinate.eqb (r_position pr) (r_position tr) = true → s' = s).
Proof. sync_coord_tac. Qed.

Lemma sync_scale_spec t p s b tr pr :
  t ≠ p → view s t = Some tr → view s p = Some pr →
  ∃ s',
    sync_coord Model.scale Model.set_scale t p (b, s)
    = Some (if Coordinate.eqb (r_scale pr) (r_scale tr) then b else true, s')
    ∧ view s' p
      = Some (Record_ (r_path pr) (r_position pr)
                (if Coordinate.eqb (r_scale pr) (r_scale tr)
                 then r_scale pr else r_scale tr)
                (r_rotation pr) (r_hidden pr) (r_opacity pr))
    ∧ frame p s s'
    ∧ (Coordinate.eqb (r_scale pr) (r_scale tr) = true → s' = s).
Proof. sync_coord_tac. Qed.

Lemma sync_rotate_spec t p s b tr pr :
  t ≠ p → view s t = Some tr → view s p = Some pr →
  ∃ s',
    sync_coord Model.rotate Model.set_rotate t p (b, s)
    = Some (if Coordinate.eqb (r_rotation pr) (r_rotation tr)
            then b else true, s')
    ∧ view s' p
      = Some (Record_ (r_path pr) (r_position pr) (r_scale pr)
                (if Coordinate.eqb (r_rotation pr) (r_rotation tr)
                 then r_rotation pr else r_rotation tr)
                (r_hidden pr) (r_opacity pr))
    ∧ frame p s s'
    ∧ (Coordinate.eqb (r_rotation pr) (r_rotation tr) = true → s' = s).
Proof. sync_coord_tac. Qed.

Ltac sync_scalar_tac f :=
  intros Htp Ht Hp; read_views Ht Hp;
  unfold f; use_lookups;
  match goal with
  | |- context [negb ?c] => destruct c eqn:Heq; simpl
  end;
  [ unchanged_case
  | unfold setattr; use_lookups;
    eexists; split; [reflexivity |]; split_and!; [| | done];
    [ apply view_Some; eexists; simpl; rewrite lookup_insert_eq;
      split; [done |]; simpl; done
    | eapply frame_assign; [eassumption | done | done |];
      unfold vector_refs; simpl;
      repeat (constructor; [apply same_refl |]); constructor ] ].

Lemma sync_hide_spec t p s b tr pr :
  t ≠ p → view s t = Some tr → view s p = Some pr →
  ∃ s',
    sync_hide t p (b, s)
    = Some (if Bool.eqb (r_hidden pr) (r_hidden tr) then b else true, s')
    ∧ view s' p
      = Some (Record_ (r_path pr) (r_position pr) (r_scale pr)
                (r_rotation pr)
                (if Bool.eqb (r_hidden pr) (r_hidden tr)
                 then r_hidden pr else r_hidden tr)
                (r_opacity pr))
    ∧ frame p s s'
    ∧ (Bool.eqb (r_hidden pr) (r_hidden tr) = true → s' = s).
Proof. sync_scalar_tac @sync_hide. Qed.

Lemma sync_opacity_spec t p s b tr pr :
  t ≠ p → view s t = Some tr → view s p = Some pr →
  ∃ s',
    sync_opacity t p (b, s)
    = Some (if py_eq (r_opacity pr) (r_opacity tr) then b else true, s')
    ∧ view s' p
      = Some (Record_ (r_path pr) (r_position pr) (r_scale pr)
                (r_rotation pr) (r_hidden pr)
                (if py_eq (r_opacity pr) (r_opacity tr)
                 then r_opacity pr else r_opacity tr))
    ∧ frame p s s'
    ∧ (py_eq (r_opacity pr) (r_opacity tr) = true → s' = s).
Proof. sync_scalar_tac @sync_opacity. Qed.
End StepProps.

Section UpdateCreate.
Context {value : Type} `{PyValue value}.
Implicit Types (s : state value) (r : ModelRecord value).

#[local] Arguments sync_coord : simpl never.
#[local] Arguments sync_hide : simpl never.
#[local] Arguments sync_opacity : simpl never.

(** The update path: the flag, the target afterwards, the frame, and
    the store left as it was when nothing differed. *)
Lemma update_spec t p s tr pr :
  t ≠ p → view s t = Some tr → view s p = Some pr →
  ∃ s',
    update t p s = Some (negb (bool_decide (changed_fields tr pr = [])), s')
    ∧ view s' p = Some (synced_record tr pr)
    ∧ frame p s s'
    ∧ (changed_fields tr pr = [] → s' = s).
Proof.
  intros Htp Ht Hp. unfold update.
  destruct (sync_pos_spec t p s false tr pr Htp Ht Hp)
    as (s1 & -> & Hp1 & F1 & E1).
  pose proof (frame_view _ _ _ _ _ F1 Htp Ht) as Ht1. simpl.
  match goal with |- context [sync_coord _ _ _ _ (?b, _)] =>
    destruct (sync_scale_spec t p s1 b tr _ Htp Ht1 Hp1)
      as (s2 & -> & Hp2 & F2 & E2) end.
  pose proof (frame_view _ _ _ _ _ F2 Htp Ht1) as Ht2. simpl in *.
  match goal with |- context [sync_coord _ _ _ _ (?b, _)] =>
    destruct (sync_rotate_spec t p s2 b tr _ Htp Ht2 Hp2)
      as (s3 & -> & Hp3 & F3 & E3) end.
  pose proof (frame_view _ _ _ _ _ F3 Htp Ht2) as Ht3. simpl in *.
  match goal with |- context [sync_hide _ _ (?b, _)] =>
    destruct (sync_hide_spec t p s3 b tr _ Htp Ht3 Hp3)
      as (s4 & -> & Hp4 & F4 & E4) end.
  pose proof (frame_view _ _ _ _ _ F4 Htp Ht3) as Ht4. simpl in *.
  match goal with |- context [sync_opacity _ _ (?b, _)] =>
    destruct (sync_opacity_spec t p s4 b tr _ Htp Ht4 Hp4)
      as (s5 & -> & Hp5 & F5 & E5) end.
  simpl in *. exists s5. split_and!.
  - f_equal. f_equal. unfold changed_fields.
    by repeat case_match.
  - exact Hp5.
  - eauto using frame_trans.
  - unfold changed_fields. intros Hnil.
    repeat case_match; try discriminate Hnil.
    rewrite E5, E4, E3, E2, E1; done.
Qed.
End UpdateCreate.

Section Create.
Context {value : Type} `{PyValue value}.
Implicit Types (s : state value) (r : ModelRecord value).

Lemma not_in_dom_insert (ch : gmap loc (Coordinate.t value)) l c a :
  a ∉ dom (<[l := c]> ch) → a ≠ l ∧ a ∉ dom ch.
Proof.
  rewrite dom_insert_L, not_elem_of_union. intros [Hl Hch].
  split; [| done]. intros ->. apply Hl. by apply elem_of_singleton.
Qed.

(** The create path: one new [Model] object at the end of the list,
    reading as the derived record, with three new [Coordinate]s. *)
Lemma create_spec t s tr :
  view s t = Some tr →
  ∃ s' l m,
    create t s = Some (true, s')
    ∧ models s' = models s ++ [l]
    ∧ model_heap s !! l = None
    ∧ model_heap s' = <[l := m]> (model_heap s)
    ∧ coord_heap s ⊆ coord_heap s'
    ∧ view s' l = Some (derived_record tr)
    ∧ Forall (λ a, a ∉ dom (coord_heap s)) (vector_refs m)
    ∧ NoDup (vector_refs m).
Proof.
  intros (tm & Htm & Ht1 & Ht2 & Ht3 & Ht4 & Ht5 & Ht6)%view_Some.
  unfold create, copy_coord, alloc_coord. rewrite Htm. simpl.
  rewrite Ht1. simpl. rewrite Htm. simpl.
  set (l1 := fresh (dom (coord_heap s))).
  set (ch1 := <[l1 := _]> (coord_heap s)).
  assert (ch1 !! Model.scale tm = Some (r_scale tr)) as ->
    by (subst ch1 l1; rewrite lookup_insert_ne;
        [done | symmetry; by eapply fresh_coord_ne]).
  simpl. rewrite Htm. simpl.
  set (l2 := fresh (dom ch1)).
  set (ch2 := <[l2 := _]> ch1).
  assert (ch2 !! Model.rotate tm = Some (r_rotation tr)) as ->
    by (subst ch2 l2 ch1 l1; rewrite !lookup_insert_ne;
        [done | symmetry; by eapply fresh_coord_ne
        | symmetry; eapply fresh_coord_ne; rewrite lookup_insert_ne;
          [done | symmetry; by eapply fresh_coord_ne]]).
  simpl. rewrite Htm. simpl.
  set (l3 := fresh (dom ch2)).
  set (ch3 := <[l3 := _]> ch2).
  eexists _, _, _. split; [reflexivity |]. simpl.
  assert (l1 ∉ dom (coord_heap s)) as N1 by apply is_fresh.
  destruct (not_in_dom_insert _ _ _ _ (is_fresh (dom ch1))) as [N21 N2].
  destruct (not_in_dom_insert _ _ _ _ (is_fresh (dom ch2))) as [N32 N3'].
  destruct (not_in_dom_insert _ _ _ _ N3') as [N31 N3].
  fold l2 in N21, N2. fold l3 in N32, N3', N31, N3.
  split_and!.
  - done.
  - apply not_elem_of_dom, is_fresh.
  - done.
  - subst ch3 ch2 ch1. etrans; [| apply insert_fresh_subseteq].
    etrans; [| apply insert_fresh_subseteq]. apply insert_fresh_subseteq.
  - apply view_Some. eexists. simpl. rewrite lookup_insert_eq.
    split; [done |]. simpl. subst ch3 ch2 ch1.
    rewrite !copy_eta, Ht4, Ht5, Ht6.
    rewrite lookup_insert_eq.
    rewrite (lookup_insert_ne _ l3 l2), lookup_insert_eq by done.
    rewrite (lookup_insert_ne _ l3 l1), (lookup_insert_ne _ l2 l1),
      lookup_insert_eq by done.
    done.
  - unfold vector_refs. simpl. by repeat constructor.
  - unfold vector_refs. simpl.
    apply NoDup_cons. split.
    { rewrite !not_elem_of_cons. split_and!; [done | done | apply not_elem_of_nil]. }
    apply NoDup_cons. split; [| apply NoDup_singleton].
    rewrite not_elem_of_cons. split; [done | apply not_elem_of_nil].
Qed.
End Create.

Section Linking.
Context {value : Type} `{PyValue value}.
Implicit Types (s : state value) (r : ModelRecord value).

Lemma find_Forall2 {A B} (R : A → B → Prop) (P : A → bool) (Q : B → bool)
    xs ys :
  Forall2 R xs ys → (∀ x y, R x y → P x = Q y) →
  option_Forall2 R (List.find P xs) (List.find Q ys).
Proof.
  intros HR Hpq. induction HR as [|x y xs ys Hxy _ IH]; simpl; [constructor |].
  rewrite (Hpq x y Hxy). destruct (Q y); [by constructor | exact IH].
Qed.

(** The last qualifying reference reads as the last qualifying record. *)
Lemma last_with_view s P ls rs :
  Forall2 (λ l r, view s l = Some r) ls rs →
  option_Forall2 (λ l r, view s l = Some r)
    (last_with (on_record P s) ls) (last_with P rs).
Proof.
  intros Hv. unfold last_with. apply find_Forall2.
  - by apply Forall2_reverse.
  - intros l r Hlr. unfold on_record. by rewrite Hlr.
Qed.

Lemma last_with_Some {A} (P : A → bool) xs x :
  last_with P xs = Some x → x ∈ xs ∧ P x = true.
Proof.
  unfold last_with. intros [Hin HP]%List.find_some. split; [|done].
  apply elem_of_reverse, list_elem_of_In. exact Hin.
Qed.

Lemma last_with_None {A} (P : A → bool) xs :
  last_with P xs = None ↔ Forall (λ x, P x = false) xs.
Proof.
  unfold last_with. rewrite <- (Forall_reverse _ xs).
  induction (reverse xs) as [|x l IH]; simpl.
  - split; [constructor | done].
  - destruct (P x) eqn:HP.
    + split; [done |]. intros [? _]%Forall_cons. congruence.
    + rewrite IH. split; [by constructor | by intros [_ ?]%Forall_cons].
Qed.

Lemma last_with_ext {A} (P Q : A → bool) xs :
  Forall (λ x, P x = Q x) xs → last_with P xs = last_with Q xs.
Proof.
  unfold last_with. rewrite <- (Forall_reverse _ xs).
  induction 1 as [|x l Hx _ IH]; simpl; [done |].
  rewrite Hx, IH. done.
Qed.

Lemma last_with_app {A} (P : A → bool) xs ys :
  last_with P (xs ++ ys)
  = match last_with P ys with Some y => Some y | None => last_with P xs end.
Proof.
  induction ys as [|y ys IH] using rev_ind.
  - by rewrite app_nil_r.
  - rewrite app_assoc, !last_with_snoc, IH. by destruct (P y).
Qed.

Lemma last_with_cons {A} (P : A → bool) x xs :
  last_with P (x :: xs)
  = match last_with P xs with
    | Some y => Some y
    | None => if P x then Some x else None
    end.
Proof. apply (last_with_app P [x] xs). Qed.

(** What the scan binds: live entries of the list, the third-party one
    with its token, the project one with its token and without the
    third-party token; hence two different objects. *)
Lemma classify_bound s tp pl :
  wf s → classify s = Some (tp, pl) →
  (∀ t, tp = Some t →
        t ∈ models s
        ∧ ∃ tr, view s t = Some tr ∧ has_third_party_token tr = true)
  ∧ (∀ p, pl = Some p →
          p ∈ models s
          ∧ ∃ pr, view s p = Some pr ∧ project_only pr = true).
Proof.
  intros Hwf Hc. rewrite (classify_spec s Hwf) in Hc.
  injection Hc as <- <-.
  split; intros x [Hin HP]%last_with_Some; (split; [done |]);
    unfold on_record in HP; destruct (view s x) as [r|]; [eauto | done | eauto | done].
Qed.

Lemma classify_distinct s t p :
  wf s → classify s = Some (Some t, Some p) → t ≠ p.
Proof.
  intros Hwf Hc.
  destruct (classify_bound s _ _ Hwf Hc) as [Ht Hp].
  destruct (Ht t eq_refl) as (_ & tr & Htr & Htok).
  destruct (Hp p eq_refl) as (_ & pr & Hpr & Hpo).
  intros ->. assert (tr = pr) as -> by congruence.
  unfold project_only in Hpo. rewrite Htok in Hpo. done.
Qed.

(** Reading a live object is stable under growth of both heaps. *)
Lemma view_mono s s' l r :
  coord_heap s ⊆ coord_heap s' → model_heap s ⊆ model_heap s' →
  view s l = Some r → view s' l = Some r.
Proof.
  intros Hc Hm. rewrite !view_Some.
  intros (m & Hml & Hp & Hs & Hr & ? & ? & ?). exists m.
  split_and!; try done; by eapply lookup_weaken.
Qed.
End Linking.

(** ** Reconciliation *)

Section Dispatch.
Context {value : Type} `{PyValue value}.
Implicit Types (s : state value) (r : ModelRecord value).

(** [sync_models] by the outcome of the scan. *)
Lemma sync_models_unfold s :
  wf s →
  sync_models s
  = match last_with (on_record has_third_party_token s) (models s) with
    | None => Some (false, s)
    | Some t =>
        match last_with (on_record project_only s) (models s) with
        | None => create t s
        | Some p => update t p s
        end
    end.
Proof.
  intros Hwf. unfold sync_models.
  destruct (models s) as [|l ls] eqn:Hls; [done |].
  rewrite <- Hls, (classify_spec s Hwf). done.
Qed.

(** The create path on records. *)
Lemma create_records s rs tp :
  records s = Some rs →
  last_with has_third_party_token rs = Some tp →
  last_with project_only rs = None →
  ∃ t s',
    classify s = Some (Some t, None)
    ∧ view s t = Some tp
    ∧ sync_models s = Some (true, s')
    ∧ records s' = Some (rs ++ [derived_record tp]).
Proof.
  intros Hrs Htp Hpl. pose proof (records_wf s rs Hrs) as Hwf.
  apply records_Some in Hrs.
  pose proof (last_with_view s has_third_party_token _ _ Hrs) as H3.
  pose proof (last_with_view s project_only _ _ Hrs) as Hp.
  rewrite Htp in H3. rewrite Hpl in Hp.
  inversion H3 as [t ? Ht Hlt |]; subst. inversion Hp as [| Hlp]; subst.
  destruct (create_spec t s tp Ht)
    as (s' & l & m & Hcr & Hms & Hfresh & Hmh & Hch & Hvl & _).
  exists t, s'. split_and!.
  - rewrite (classify_spec s Hwf). congruence.
  - done.
  - rewrite (sync_models_unfold s Hwf), <- Hlt, <- Hlp. done.
  - apply records_Some. rewrite Hms. apply Forall2_app.
    + eapply Forall2_impl; [exact Hrs |]. simpl. intros x r Hx.
      eapply view_mono; [done | | done].
      rewrite Hmh. by apply insert_subseteq.
    + by repeat constructor.
Qed.
End Dispatch.

(** C5.  When no record's path contains the third-party token (the empty
    collection included), [sync_models] returns [False] and leaves the
    whole store, hence the model collection, exactly as it was. *)
Theorem no_third_party_unmodified {value : Type} `{PyValue value}
    (s : state value) (rs : list (ModelRecord value)) :
  records s = Some rs →
  Forall (λ r, has_third_party_token r = false) rs →
  sync_models s = Some (false, s).
Proof.
  intros Hrs Hno. pose proof (records_wf s rs Hrs) as Hwf.
  rewrite (sync_models_unfold s Hwf).
  apply records_Some in Hrs.
  pose proof (last_with_view s has_third_party_token _ _ Hrs) as H3.
  apply last_with_None in Hno. rewrite Hno in H3.
  by inversion H3.
Qed.

(** C10.  A record whose path carries both tokens is bound as the
    third-party record and not as the project record: when it is the only
    record carrying a token, the scan binds it as third-party, binds no
    project record, and [sync_models] appends the derived record and
    returns [True]. *)
Theorem both_tokens_create {value : Type} `{PyValue value}
    (s : state value) (l1 l2 : list (ModelRecord value))
    (r : ModelRecord value) :
  records s = Some (l1 ++ r :: l2) →
  has_third_party_token r = true →
  has_project_token r = true →
  Forall (λ x, has_third_party_token x = false ∧ has_project_token x = false)
         (l1 ++ l2) →
  ∃ t s',
    classify s = Some (Some t, None)
    ∧ view s t = Some r
    ∧ sync_models s = Some (true, s')
    ∧ records s' = Some ((l1 ++ r :: l2) ++ [derived_record r]).
Proof.
  intros Hrs H3 Hp [Hl1 Hl2]%Forall_app.
  apply (create_records s _ r Hrs).
  - rewrite last_with_app, last_with_cons.
    assert (last_with has_third_party_token l2 = None) as ->.
    { apply last_with_None.
      eapply Forall_impl; [exact Hl2 |]. by intros x [? _]. }
    by rewrite H3.
  - apply last_with_None. apply Forall_app. split; [| apply Forall_cons; split].
    + eapply Forall_impl; [exact Hl1 |]. intros x [_ Hx].
      unfold project_only. rewrite Hx. apply andb_false_r.
    + unfold project_only. by rewrite H3.
    + eapply Forall_impl; [exact Hl2 |]. intros x [_ Hx].
      unfold project_only. rewrite Hx. apply andb_false_r.
Qed.

Section Paths.
Context {value : Type} `{PyValue value}.
Implicit Types (s : state value) (r : ModelRecord value).

Lemma classify_cases s tp pl :
  wf s → classify s = Some (tp, pl) →
  tp = last_with (on_record has_third_party_token s) (models s)
  ∧ pl = last_with (on_record project_only s) (models s).
Proof.
  intros Hwf Hc. rewrite (classify_spec s Hwf) in Hc.
  by injection Hc as <- <-.
Qed.

(** The update path of [sync_models]. *)
Lemma sync_models_update s t p :
  wf s → classify s = Some (Some t, Some p) →
  ∃ tr pr s',
    view s t = Some tr ∧ view s p = Some pr ∧ t ≠ p
    ∧ sync_models s
      = Some (negb (bool_decide (changed_fields tr pr = [])), s')
    ∧ view s' p = Some (synced_record tr pr)
    ∧ frame p s s'
    ∧ (changed_fields tr pr = [] → s' = s).
Proof.
  intros Hwf Hc. pose proof (classify_distinct s t p Hwf Hc) as Htp.
  destruct (classify_bound s _ _ Hwf Hc) as [Ht Hp].
  destruct (Ht t eq_refl) as (_ & tr & Htr & _).
  destruct (Hp p eq_refl) as (_ & pr & Hpr & _).
  destruct (update_spec t p s tr pr Htp Htr Hpr) as (s' & Hu & Hrest).
  exists tr, pr, s'. split_and!; try done; [| apply Hrest..].
  destruct (classify_cases s _ _ Hwf Hc) as [H3 Hpl].
  by rewrite (sync_models_unfold s Hwf), <- H3, <- Hpl.
Qed.

(** The create path of [sync_models]. *)
Lemma sync_models_create s t :
  wf s → classify s = Some (Some t, None) →
  ∃ tr s' l m,
    view s t = Some tr
    ∧ sync_models s = Some (true, s')
    ∧ models s' = models s ++ [l]
    ∧ model_heap s !! l = None
    ∧ model_heap s' = <[l := m]> (model_heap s)
    ∧ coord_heap s ⊆ coord_heap s'
    ∧ view s' l = Some (derived_record tr)
    ∧ Forall (λ a, a ∉ dom (coord_heap s)) (vector_refs m)
    ∧ NoDup (vector_refs m).
Proof.
  intros Hwf Hc.
  destruct (classify_bound s _ _ Hwf Hc) as [Ht _].
  destruct (Ht t eq_refl) as (_ & tr & Htr & _).
  destruct (create_spec t s tr Htr) as (s' & l & m & Hcr & Hrest).
  exists tr, s', l, m. split_and!; try done; [| apply Hrest..].
  destruct (classify_cases s _ _ Hwf Hc) as [H3 Hpl].
  by rewrite (sync_models_unfold s Hwf), <- H3, <- Hpl.
Qed.

Lemma changed_fields_nil_iff (tr pr : ModelRecord value) :
  negb (bool_decide (changed_fields tr pr = [])) = true
  ↔ changed_fields tr pr ≠ [].
Proof.
  rewrite negb_true_iff, bool_decide_eq_false. done.
Qed.
End Paths.

(** ** References held after the update path *)

Section Refs.
Context {value : Type} `{PyValue value}.
Implicit Types (s : state value).

Lemma ref_after_mono (ch ch' : gmap loc (Coordinate.t value)) e a a' :
  ch ⊆ ch' → ref_after ch' e a a' → ref_after ch e a a'.
Proof.
  intros Hsub. destruct e; simpl; [done |].
  intros Hn Hin. apply Hn. by apply (subseteq_dom ch ch').
Qed.

(** The result of one vector step, written out. *)
Lemma sync_coord_exact f set t p b s pm tm pc tc :
  model_heap s !! p = Some pm → model_heap s !! t = Some tm →
  coord_heap s !! f pm = Some pc → coord_heap s !! f tm = Some tc →
  sync_coord f set t p (b, s)
  = Some (if Coordinate.eqb pc tc then (b, s)
          else (true,
                State (<[fresh (dom (coord_heap s)) := tc]> (coord_heap s))
                      (<[p := set (fresh (dom (coord_heap s))) pm]>
                         (model_heap s))
                      (models s))).
Proof.
  intros Hpm Htm Hpc Htc. unfold sync_coord.
  rewrite Hpm, Htm. simpl. rewrite Hpc, Htc. simpl.
  destruct (Coordinate.eqb pc tc); simpl; [done |].
  unfold copy_coord, alloc_coord, setattr. rewrite Htm. simpl.
  rewrite Htc. simpl. rewrite Hpm. simpl. by rewrite copy_eta.
Qed.

(** The target object after one vector step. *)
Lemma sync_coord_target f set t p b s b' s' pm tm pc tc :
  model_heap s !! p = Some pm → model_heap s !! t = Some tm →
  coord_heap s !! f pm = Some pc → coord_heap s !! f tm = Some tc →
  sync_coord f set t p (b, s) = Some (b', s') →
  model_heap s' !! p
  = Some (if Coordinate.eqb pc tc then pm
          else set (fresh (dom (coord_heap s))) pm).
Proof.
  intros Hpm Htm Hpc Htc.
  rewrite (sync_coord_exact f set t p b s pm tm pc tc) by done.
  destruct (Coordinate.eqb pc tc); intros [= <- <-]; [done |].
  simpl. by rewrite lookup_insert_eq.
Qed.

Lemma sync_hide_target t p b s b' s' pm tm :
  model_heap s !! p = Some pm → model_heap s !! t = Some tm →
  sync_hide t p (b, s) = Some (b', s') →
  ∃ pm', model_heap s' !! p = Some pm' ∧ vector_refs pm' = vector_refs pm.
Proof.
  intros Hpm Htm. unfold sync_hide. rewrite Hpm, Htm. simpl.
  destruct (Bool.eqb (Model.hide pm) (Model.hide tm)); simpl.
  - intros [= <- <-]. eauto.
  - unfold setattr. rewrite Hpm. simpl. intros [= <- <-]. simpl.
    rewrite lookup_insert_eq. eauto.
Qed.

Lemma sync_opacity_target t p b s b' s' pm tm :
  model_heap s !! p = Some pm → model_heap s !! t = Some tm →
  sync_opacity t p (b, s) = Some (b', s') →
  ∃ pm', model_heap s' !! p = Some pm' ∧ vector_refs pm' = vector_refs pm.
Proof.
  intros Hpm Htm. unfold sync_opacity. rewrite Hpm, Htm. simpl.
  destruct (py_eq (Model.opacity pm) (Model.opacity tm)); simpl.
  - intros [= <- <-]. eauto.
  - unfold setattr. rewrite Hpm. simpl. intros [= <- <-]. simpl.
    rewrite lookup_insert_eq. eauto.
Qed.

Lemma view_lookups s l r m :
  view s l = Some r → model_heap s !! l = Some m →
  coord_heap s !! Model.pos m = Some (r_position r)
  ∧ coord_heap s !! Model.scale m = Some (r_scale r)
  ∧ coord_heap s !! Model.rotate m = Some (r_rotation r).
Proof.
  intros (m' & Hm' & Hp & Hs & Hr & _)%view_Some Hm.
  assert (m' = m) as -> by congruence. done.
Qed.

#[local] Arguments sync_coord : simpl never.
#[local] Arguments sync_hide : simpl never.
#[local] Arguments sync_opacity : simpl never.

(** The vector references of the project object after the update path:
    each is the one held before when the vectors compared equal, and a
    [Coordinate] absent from the old heap when they did not. *)
Lemma update_refs t p s tr pr pm b s' :
  t ≠ p → view s t = Some tr → view s p = Some pr →
  model_heap s !! p = Some pm →
  update t p s = Some (b, s') →
  ∃ pm',
    model_heap s' !! p = Some pm'
    ∧ ref_after (coord_heap s)
        (Coordinate.eqb (r_position pr) (r_position tr))
        (Model.pos pm) (Model.pos pm')
    ∧ ref_after (coord_heap s)
        (Coordinate.eqb (r_scale pr) (r_scale tr))
        (Model.scale pm) (Model.scale pm')
    ∧ ref_after (coord_heap s)
        (Coordinate.eqb (r_rotation pr) (r_rotation tr))
        (Model.rotate pm) (Model.rotate pm').
Proof.
  intros Htp Ht Hp Hpm. unfold update.
  pose proof Ht as (tm & Htm & _)%view_Some.
  (* position *)
  destruct (sync_pos_spec t p s false tr pr Htp Ht Hp)
    as (s1 & Hrun1 & Hp1 & F1 & _).
  destruct (view_lookups s p pr pm Hp Hpm) as (Hc1 & _ & _).
  destruct (view_lookups s t tr tm Ht Htm) as (Hd1 & _ & _).
  pose proof (sync_coord_target _ _ _ _ _ _ _ _ _ _ _ _
                Hpm Htm Hc1 Hd1 Hrun1) as Hm1.
  pose proof (frame_view _ _ _ _ _ F1 Htp Ht) as Ht1.
  assert (model_heap s1 !! t = Some tm) as Htm1
    by by rewrite (frame_models _ _ _ F1).
  rewrite Hrun1. simpl.
  set (e1 := Coordinate.eqb (r_position pr) (r_position tr)) in *.
  set (pm1 := if e1 then pm else Model.set_pos (fresh (dom (coord_heap s))) pm)
    in *.
  (* scale *)
  match goal with |- context [sync_coord _ _ _ _ (?b0, _)] =>
    destruct (sync_scale_spec t p s1 b0 tr _ Htp Ht1 Hp1)
      as (s2 & Hrun2 & Hp2 & F2 & _) end.
  destruct (view_lookups s1 p _ pm1 Hp1 Hm1) as (_ & Hc2 & _).
  destruct (view_lookups s1 t tr tm Ht1 Htm1) as (_ & Hd2 & _).
  pose proof (sync_coord_target _ _ _ _ _ _ _ _ _ _ _ _
                Hm1 Htm1 Hc2 Hd2 Hrun2) as Hm2.
  pose proof (frame_view _ _ _ _ _ F2 Htp Ht1) as Ht2.
  assert (model_heap s2 !! t = Some tm) as Htm2
    by by rewrite (frame_models _ _ _ F2).
  rewrite Hrun2. simpl in *.
  set (e2 := Coordinate.eqb (r_scale pr) (r_scale tr)) in *.
  set (pm2 := if e2 then pm1
              else Model.set_scale (fresh (dom (coord_heap s1))) pm1) in *.
  (* rotation *)
  match goal with |- context [sync_coord _ _ _ _ (?b0, _)] =>
    destruct (sync_rotate_spec t p s2 b0 tr _ Htp Ht2 Hp2)
      as (s3 & Hrun3 & Hp3 & F3 & _) end.
  destruct (view_lookups s2 p _ pm2 Hp2 Hm2) as (_ & _ & Hc3).
  destruct (view_lookups s2 t tr tm Ht2 Htm2) as (_ & _ & Hd3).
  pose proof (sync_coord_target _ _ _ _ _ _ _ _ _ _ _ _
                Hm2 Htm2 Hc3 Hd3 Hrun3) as Hm3.
  pose proof (frame_view _ _ _ _ _ F3 Htp Ht2) as Ht3.
  assert (model_heap s3 !! t = Some tm) as Htm3
    by by rewrite (frame_models _ _ _ F3).
  rewrite Hrun3. simpl in *.
  set (e3 := Coordinate.eqb (r_rotation pr) (r_rotation tr)) in *.
  set (pm3 := if e3 then pm2
              else Model.set_rotate (fresh (dom (coord_heap s2))) pm2) in *.
  (* hidden, opacity *)
  match goal with |- context [sync_hide _ _ (?b0, _)] =>
    destruct (sync_hide_spec t p s3 b0 tr _ Htp Ht3 Hp3)
      as (s4 & Hrun4 & Hp4 & F4 & _) end.
  destruct (sync_hide_target _ _ _ _ _ _ _ _ Hm3 Htm3 Hrun4)
    as (pm4 & Hm4 & Hr4).
  pose proof (frame_view _ _ _ _ _ F4 Htp Ht3) as Ht4.
  assert (model_heap s4 !! t = Some tm) as Htm4
    by by rewrite (frame_models _ _ _ F4).
  rewrite Hrun4. simpl in *.
  intros Hrun5.
  destruct (sync_opacity_target _ _ _ _ _ _ _ _ Hm4 Htm4 Hrun5)
    as (pm5 & Hm5 & Hr5).
  exists pm5. split; [done |].
  assert (vector_refs pm5 = vector_refs pm3) as Hrefs by congruence.
  unfold vector_refs in Hrefs. injection Hrefs as -> -> ->.
  pose proof (frame_coords _ _ _ F1) as S1.
  pose proof (frame_coords _ _ _ F2) as S2.
  assert (coord_heap s ⊆ coord_heap s2) as S12 by by etrans.
  subst pm3 pm2 pm1. split_and!.
  - destruct e1, e2, e3; simpl; try done; apply is_fresh.
  - apply (ref_after_mono _ (coord_heap s1)); [done |].
    destruct e1, e2, e3; simpl; try done; apply is_fresh.
  - apply (ref_after_mono _ (coord_heap s2)); [done |].
    destruct e1, e2, e3; simpl; try done; apply is_fresh.
Qed.
Lemma sync_models_is_update s t p :
  wf s → classify s = Some (Some t, Some p) → sync_models s = update t p s.
Proof.
  intros Hwf Hc. destruct (classify_cases s _ _ Hwf Hc) as [H3 Hp].
  by rewrite (sync_models_unfold s Hwf), <- H3, <- Hp.
Qed.
End Refs.

(** C3.  When the scan binds both a third-party and a project record,
    [sync_models] compares position, scale, rotation, hidden and opacity
    with [!=] (no tolerance) and leaves the project record reading as
    [synced_record]: each field that compared unequal now holds the
    third-party value, every other field and the path are as before.
    The returned flag is [True] exactly when some field compared unequal;
    the list and every other record are as before.  An overwritten
    vector is a copy: the project object then refers to a [Coordinate]
    that did not exist before the call, a vector that compared equal is
    the object it was, and no existing [Coordinate] is altered. *)
Theorem update_correct {value : Type} `{PyValue value}
    (s : state value) (t p : loc) :
  wf s →
  classify s = Some (Some t, Some p) →
  ∃ tr pr b s' pm pm',
    view s t = Some tr ∧ view s p = Some pr
    ∧ sync_models s = Some (b, s')
    ∧ (b = true ↔ changed_fields tr pr ≠ [])
    ∧ view s' p = Some (synced_record tr pr)
    ∧ models s' = models s
    ∧ (∀ l r, l ≠ p → view s l = Some r → view s' l = Some r)
    ∧ model_heap s !! p = Some pm
    ∧ model_heap s' !! p = Some pm'
    ∧ coord_heap s ⊆ coord_heap s'
    ∧ ref_after (coord_heap s)
        (Coordinate.eqb (r_position pr) (r_position tr))
        (Model.pos pm) (Model.pos pm')
    ∧ ref_after (coord_heap s)
        (Coordinate.eqb (r_scale pr) (r_scale tr))
        (Model.scale pm) (Model.scale pm')
    ∧ ref_after (coord_heap s)
        (Coordinate.eqb (r_rotation pr) (r_rotation tr))
        (Model.rotate pm) (Model.rotate pm').
Proof.
  intros Hwf Hc.
  destruct (sync_models_update s t p Hwf Hc)
    as (tr & pr & s' & Ht & Hp & Htp & Hs & Hp' & Hf & _).
  pose proof Hp as (pm & Hpm & _)%view_Some.
  pose proof Hs as Hu. rewrite (sync_models_is_update s t p Hwf Hc) in Hu.
  destruct (update_refs t p s tr pr pm _ s' Htp Ht Hp Hpm Hu)
    as (pm' & Hpm' & R1 & R2 & R3).
  eexists tr, pr, _, s', pm, pm'.
  split_and!; [done | done | exact Hs | | done | | | done | done | | done..].
  - apply changed_fields_nil_iff.
  - apply Hf.
  - intros l r Hl Hv. by eapply frame_view.
  - apply Hf.
Qed.

Section Invariance.
Context {value : Type} `{PyValue value}.
Implicit Types (s : state value) (r : ModelRecord value).

Lemma refs_live s l m r :
  model_heap s !! l = Some m → view s l = Some r →
  Forall (λ a, a ∈ dom (coord_heap s)) (vector_refs m).
Proof.
  intros Hm (m' & Hm' & Hp & Hs & Hr & _)%view_Some.
  assert (m' = m) as -> by congruence.
  unfold vector_refs. repeat (constructor; [by eapply elem_of_dom_2 |]).
  constructor.
Qed.

Lemma new_not_shared s (tm : Model.t value) a :
  Forall (λ a, a ∈ dom (coord_heap s)) (vector_refs tm) →
  a ∉ dom (coord_heap s) → a ∉ vector_refs tm.
Proof.
  rewrite Forall_forall. intros Hlive Hnew Hin. by apply Hnew, Hlive.
Qed.

Lemma components_self_equal_eqb (c : Coordinate.t value) :
  components_self_equal c → Coordinate.eqb c c = true.
Proof.
  intros (E1 & E2 & E3). unfold Coordinate.eqb, Coordinate.item_eq.
  rewrite E1, E2, E3. by rewrite !orb_true_r.
Qed.

Lemma self_equal_eqb (r : ModelRecord value) :
  self_equal r →
  Coordinate.eqb (r_position r) (r_position r) = true
  ∧ Coordinate.eqb (r_scale r) (r_scale r) = true
  ∧ Coordinate.eqb (r_rotation r) (r_rotation r) = true
  ∧ py_eq (r_opacity r) (r_opacity r) = true.
Proof.
  intros (E1 & E2 & E3 & E4).
  split_and!; [by apply components_self_equal_eqb.. | done].
Qed.

Lemma changed_synced (tr pr : ModelRecord value) :
  self_equal tr → changed_fields tr (synced_record tr pr) = [].
Proof.
  intros (E1 & E2 & E3 & E4)%self_equal_eqb. unfold changed_fields, synced_record. simpl.
  destruct (Coordinate.eqb (r_position pr) (r_position tr)) eqn:D1;
    rewrite ?D1, ?E1.
  all: destruct (Coordinate.eqb (r_scale pr) (r_scale tr)) eqn:D2;
    rewrite ?D2, ?E2.
  all: destruct (Coordinate.eqb (r_rotation pr) (r_rotation tr)) eqn:D3;
    rewrite ?D3, ?E3.
  all: destruct (py_eq (r_opacity pr) (r_opacity tr)) eqn:D4;
    rewrite ?D4, ?E4.
  all: by destruct (r_hidden pr), (r_hidden tr).
Qed.

Lemma changed_derived (tr : ModelRecord value) :
  self_equal tr → changed_fields tr (derived_record tr) = [].
Proof.
  intros (E1 & E2 & E3 & E4)%self_equal_eqb. unfold changed_fields, derived_record. simpl.
  rewrite E1, E2, E3, E4. by destruct (r_hidden tr).
Qed.

(** The scan tests read the path only. *)
Lemma last_with_same_paths s s' (P : ModelRecord value → bool) :
  (∀ r r', r_path r = r_path r' → P r = P r') →
  Forall (λ l, ∃ r r', view s l = Some r ∧ view s' l = Some r'
                       ∧ r_path r = r_path r') (models s) →
  last_with (on_record P s') (models s) = last_with (on_record P s) (models s).
Proof.
  intros HP Hall. apply last_with_ext.
  eapply Forall_impl; [exact Hall |]. simpl.
  intros l (r & r' & Hr & Hr' & Hpath). unfold on_record.
  rewrite Hr, Hr'. symmetry. by apply HP.
Qed.

Lemma third_party_path_only (r r' : ModelRecord value) :
  r_path r = r_path r' → has_third_party_token r = has_third_party_token r'.
Proof. unfold has_third_party_token. by intros ->. Qed.

Lemma project_only_path_only (r r' : ModelRecord value) :
  r_path r = r_path r' → project_only r = project_only r'.
Proof.
  unfold project_only, has_third_party_token, has_project_token.
  by intros ->.
Qed.
End Invariance.

(** C2.  When some record carries the third-party token and none carries
    the project token, [sync_models] returns [True] and the collection is
    the old one followed by exactly one record: its path is
    ["${KIPRJMOD}/3d-models/"] followed by the basename of the third-party
    path (for a path [d/f] with no separator in [f], that is [f]), and
    its position, scale, rotation, hidden flag and opacity are the
    third-party record's.  The third-party record is the one the scan
    binds, the last one carrying the token.  The record is a new model
    object whose three vectors are copies: three different [Coordinate]
    objects that did not exist before the call, none of them a vector of
    a record that was in the footprint, and no existing [Coordinate] is
    altered. *)
Theorem create_correct {value : Type} `{PyValue value}
    (s : state value) (rs : list (ModelRecord value)) :
  records s = Some rs →
  Exists (λ r, has_third_party_token r = true) rs →
  Forall (λ r, has_project_token r = false) rs →
  ∃ tp s' l m,
    last_with has_third_party_token rs = Some tp
    ∧ sync_models s = Some (true, s')
    ∧ records s'
      = Some (rs ++ [Record_ ("${KIPRJMOD}/3d-models/" +:+ basename (r_path tp))
                             (r_position tp) (r_scale tp) (r_rotation tp)
                             (r_hidden tp) (r_opacity tp)])
    ∧ (∀ d f, r_path tp = d +:+ "/" +:+ f → contains "/" f = false →
              basename (r_path tp) = f)
    ∧ models s' = models s ++ [l]
    ∧ model_heap s !! l = None
    ∧ model_heap s' !! l = Some m
    ∧ coord_heap s ⊆ coord_heap s'
    ∧ NoDup (vector_refs m)
    ∧ Forall (λ a, a ∉ dom (coord_heap s)) (vector_refs m)
    ∧ (∀ x xm r, model_heap s !! x = Some xm → view s x = Some r →
                 Forall (λ a, a ∉ vector_refs xm) (vector_refs m)).
Proof.
  intros Hrs Hex Hno. pose proof (records_wf s rs Hrs) as Hwf.
  destruct (last_with has_third_party_token rs) as [tp|] eqn:Htp.
  - assert (last_with project_only rs = None) as Hpl.
    { apply last_with_None. eapply Forall_impl; [exact Hno |]. simpl.
      intros r Hr. unfold project_only. rewrite Hr. apply andb_false_r. }
    destruct (create_records s rs tp Hrs Htp Hpl)
      as (t & s' & Hc & _ & Hs & Hr).
    destruct (sync_models_create s t Hwf Hc)
      as (tr & s1 & l & m & _ & Hs1 & Hms & Hfresh & Hmh & Hch & _ & Hnew & Hnd).
    assert (s1 = s') as -> by congruence.
    exists tp, s', l, m.
    split_and!; [done | done | exact Hr | | done | done | | done | done | done |].
    + intros d f -> Hf. by apply basename_sep.
    + by rewrite Hmh, lookup_insert_eq.
    + intros x xm r Hxm Hx. eapply Forall_impl; [exact Hnew |]. simpl.
      intros a Ha. eapply new_not_shared; [| done]. by eapply refs_live.
  - apply last_with_None in Htp. apply Exists_exists in Hex as (r & Hin & Hr).
    rewrite Forall_forall in Htp. rewrite (Htp r Hin) in Hr. done.
Qed.

(** C6.  [sync_models] never assigns to the third-party record: its
    [Model] object is the same after the call (same path, same three
    vector references, same hidden flag and opacity) and reads the same
    through its references.  Every vector reference that some model
    object holds after the call and did not hold before in that attribute
    is a [Coordinate] allocated by the call: it is not in the old heap and
    is none of the third-party record's vectors. *)
Theorem third_party_not_mutated {value : Type} `{PyValue value}
    (s : state value) (t : loc) (pl : option loc) :
  wf s →
  classify s = Some (Some t, pl) →
  ∃ b s' tm tr,
    sync_models s = Some (b, s')
    ∧ model_heap s !! t = Some tm ∧ view s t = Some tr
    ∧ model_heap s' !! t = Some tm ∧ view s' t = Some tr
    ∧ (∀ l m' i a',
         model_heap s' !! l = Some m' →
         vector_refs m' !! i = Some a' →
         (∀ m, model_heap s !! l = Some m → vector_refs m !! i ≠ Some a') →
         (a' ∉ dom (coord_heap s)) ∧ (a' ∉ vector_refs tm)).
Proof.
  intros Hwf Hc. destruct pl as [p|].
  - destruct (sync_models_update s t p Hwf Hc)
      as (tr & pr & s' & Ht & Hp & Htp & Hs & Hp' & Hf & _).
    pose proof Ht as (tm & Htm & _)%view_Some.
    pose proof Hp as (pm & Hpm & _)%view_Some.
    eexists _, s', tm, tr. split_and!; [exact Hs | done | done | | |].
    + by rewrite (frame_models _ _ _ Hf).
    + by eapply frame_view.
    + intros l m' i a' Hm' Hi Hnot.
      assert (a' ∉ dom (coord_heap s)) as Hnew.
      { destruct (decide (l = p)) as [-> | Hl].
        - destruct (frame_target _ _ _ Hf pm Hpm) as (m'' & Hm'' & _ & Hrefs).
          assert (m'' = m') as -> by congruence.
          destruct (Forall2_lookup_r _ _ _ _ _ Hrefs Hi) as (a & Ha & [-> | Hn]).
          + by destruct (Hnot pm Hpm).
          + done.
        - rewrite (frame_models _ _ _ Hf) in Hm' by done.
          by destruct (Hnot m' Hm'). }
      split; [done |]. eapply new_not_shared; [| done]. by eapply refs_live.
  - destruct (sync_models_create s t Hwf Hc)
      as (tr & s' & l0 & m & Ht & Hs & Hms & Hfresh & Hmh & Hch & Hvl & Hnew & _).
    pose proof Ht as (tm & Htm & _)%view_Some.
    assert (t ≠ l0) as Htl by congruence.
    eexists _, s', tm, tr. split_and!; [exact Hs | done | done | | |].
    + by rewrite Hmh, lookup_insert_ne.
    + eapply view_mono; [done | | done]. rewrite Hmh. by apply insert_subseteq.
    + intros l m' i a' Hm' Hi Hnot.
      assert (a' ∉ dom (coord_heap s)) as Ha'.
      { rewrite Hmh in Hm'. destruct (decide (l = l0)) as [-> | Hl].
        - rewrite lookup_insert_eq in Hm'. injection Hm' as <-.
          rewrite Forall_forall in Hnew. apply Hnew.
          by eapply list_elem_of_lookup_2.
        - rewrite lookup_insert_ne in Hm' by done.
          by destruct (Hnot m' Hm'). }
      split; [done |]. eapply new_not_shared; [| done]. by eapply refs_live.
Qed.

Section FixedPoint.
Context {value : Type} `{PyValue value}.
Implicit Types (s : state value) (r : ModelRecord value).

Lemma view_model_live s l r : view s l = Some r → is_Some (model_heap s !! l).
Proof. intros (m & Hm & _)%view_Some. eauto. Qed.

(** After the create path a second call takes the update path and finds
    nothing to do. *)
Lemma second_run_after_create s t tr s' l m :
  wf s →
  classify s = Some (Some t, None) →
  view s t = Some tr →
  has_third_party_token (derived_record tr) = false →
  self_equal tr →
  models s' = models s ++ [l] →
  model_heap s !! l = None →
  model_heap s' = <[l := m]> (model_heap s) →
  coord_heap s ⊆ coord_heap s' →
  view s' l = Some (derived_record tr) →
  sync_models s' = Some (false, s').
Proof.
  intros Hwf Hc Ht Htok Hself Hms Hfresh Hmh Hch Hvl.
  assert (model_heap s ⊆ model_heap s') as Hsub
    by (rewrite Hmh; by apply insert_subseteq).
  assert (Forall (λ x, ∃ r r', view s x = Some r ∧ view s' x = Some r'
                               ∧ r_path r = r_path r') (models s)) as Hold.
  { unfold wf in Hwf. eapply Forall_impl; [exact Hwf |]. simpl.
    intros x [r Hr]. exists r, r. split_and!; [done | | done].
    by eapply view_mono. }
  assert (wf s') as Hwf'.
  { unfold wf. rewrite Hms. apply Forall_app. split.
    - eapply Forall_impl; [exact Hold |]. simpl.
      intros x (_ & r' & _ & Hr' & _). eauto.
    - apply Forall_singleton. eauto. }
  destruct (classify_cases s _ _ Hwf Hc) as [H3 Hpl].
  assert (t ≠ l) as Htl.
  { intros ->. apply view_model_live in Ht as [? Ht]. congruence. }
  rewrite (sync_models_unfold s' Hwf'), Hms, !last_with_snoc.
  unfold on_record at 1 3. rewrite Hvl, Htok.
  rewrite (last_with_same_paths s s' _ third_party_path_only Hold), <- H3.
  assert (project_only (derived_record tr) = true) as ->.
  { unfold project_only. rewrite Htok. apply derived_path_project. }
  destruct (update_spec t l s' tr (derived_record tr) Htl)
    as (s'' & -> & _ & _ & Hsame); [by eapply view_mono | done |].
  rewrite (changed_derived tr Hself) in *. by rewrite Hsame.
Qed.

(** After the update path a second call binds the same two records and
    finds nothing to do. *)
Lemma second_run_after_update s t p tr pr s' :
  wf s →
  classify s = Some (Some t, Some p) →
  view s t = Some tr → view s p = Some pr → t ≠ p →
  self_equal tr →
  view s' p = Some (synced_record tr pr) →
  frame p s s' →
  sync_models s' = Some (false, s').
Proof.
  intros Hwf Hc Ht Hp Htp Hself Hp' Hf.
  assert (Forall (λ x, ∃ r r', view s x = Some r ∧ view s' x = Some r'
                               ∧ r_path r = r_path r') (models s)) as Hold.
  { unfold wf in Hwf. eapply Forall_impl; [exact Hwf |]. simpl.
    intros x [r Hr]. destruct (decide (x = p)) as [-> | Hx].
    - exists pr, (synced_record tr pr). split_and!; [congruence | done | done].
    - exists r, r. split_and!; [done | | done]. by eapply frame_view. }
  assert (wf s') as Hwf'.
  { unfold wf. rewrite (frame_list _ _ _ Hf).
    eapply Forall_impl; [exact Hold |]. simpl.
    intros x (_ & r' & _ & Hr' & _). eauto. }
  destruct (classify_cases s _ _ Hwf Hc) as [H3 Hpl].
  rewrite (sync_models_unfold s' Hwf'), (frame_list _ _ _ Hf).
  rewrite (last_with_same_paths s s' _ third_party_path_only Hold), <- H3.
  rewrite (last_with_same_paths s s' _ project_only_path_only Hold), <- Hpl.
  destruct (update_spec t p s' tr (synced_record tr pr) Htp)
    as (s'' & -> & _ & _ & Hsame); [by eapply frame_view | done |].
  rewrite (changed_synced tr pr Hself) in *. by rewrite Hsame.
Qed.
End FixedPoint.

(** C4 (as amended).  On a well-formed footprint whose bound third-party
    record has numbers that are [==] to themselves and, when no project
    record is bound, a basename that does not contain the third-party
    token, [sync_models] returns, and a second call on the resulting
    footprint returns [False] and changes nothing. *)
Theorem sync_models_fixed_point {value : Type} `{PyValue value}
    (s : state value) :
  wf s →
  (∀ t pl tr, classify s = Some (Some t, pl) → view s t = Some tr →
              self_equal tr) →
  (∀ t tr, classify s = Some (Some t, None) → view s t = Some tr →
           contains third_party_token (basename (r_path tr)) = false) →
  ∃ b s', sync_models s = Some (b, s') ∧ sync_models s' = Some (false, s').
Proof.
  intros Hwf Hself Hbase.
  pose proof (classify_spec s Hwf) as Hc.
  pose proof (sync_models_unfold s Hwf) as Hs.
  destruct (last_with (on_record has_third_party_token s) (models s))
    as [t|] eqn:H3; [| by exists false, s].
  destruct (last_with (on_record project_only s) (models s)) as [p|] eqn:Hp.
  - destruct (sync_models_update s t p Hwf Hc)
      as (tr & pr & s' & Ht & Hpr & Htp & Hs' & Hp' & Hf & _).
    eexists _, s'. split; [exact Hs' |].
    eapply second_run_after_update; eauto.
  - destruct (sync_models_create s t Hwf Hc)
      as (tr & s' & l & m & Ht & Hs' & Hms & Hfresh & Hmh & Hch & Hvl & _).
    exists true, s'. split; [exact Hs' |].
    eapply (second_run_after_create s t tr s' l m); try eassumption.
    + pose proof (Hbase t tr Hc Ht) as Hb.
      rewrite <- derived_path_third_party in Hb. exact Hb.
    + by eapply Hself.
Qed.

(** C4 (as stated) fails: for a third-party path without a separator the
    appended record's path contains the third-party token again, so the
    second call appends once more and returns [True]. *)
Lemma second_run_modifies_counterexample :
  ¬ ∀ (s : state pyfloat) b s',
      wf s → sync_models s = Some (b, s') →
      ∃ s'', sync_models s' = Some (false, s'').
Proof.
  intros Hc.
  destruct (sync_models fp_no_separator) as [[b s']|] eqn:Hrun;
    [| by vm_compute in Hrun].
  destruct (Hc fp_no_separator b s') as [s'' Hs'']; [| done |].
  - by apply (bool_decide_unpack _); vm_compute.
  - vm_compute in Hrun. injection Hrun as <- <-.
    vm_compute in Hs''. discriminate Hs''.
Qed.

(** ** The pipeline *)

Section PipelineProps.
Context {value disk : Type} `{PyValue value} `{Documents value disk}.

Lemma process_dry_run_disk filepath (d : disk) :
  (process_footprint_file filepath true d).2 = d.
Proof.
  unfold process_footprint_file. by repeat case_match.
Qed.

(** A dry run never changes the disk, whatever the files. *)
Lemma dry_run_disk_unchanged files n (d : disk) :
  (process_all files true n d).2 = d.
Proof.
  revert n. induction files as [|f files IH]; intros n; [done |].
  simpl. pose proof (process_dry_run_disk f d) as Hd.
  destruct (process_footprint_file f true d) as [b d']. simpl in Hd.
  subst d'. apply IH.
Qed.

Lemma main_total getenv directory dry_run t (d : disk) :
  total_files (main getenv directory dry_run t d)
  = length (find_footprint_files (default directory getenv) t).
Proof.
  unfold main. destruct (find_footprint_files _ t) as [|f fs]; [done |].
  destruct (process_all _ _ _ _) as [n d']. by case_match.
Qed.
End PipelineProps.

(** The counter after the loop: one more for each file that returned
    [True]. *)
Lemma process_all_counts {value disk : Type} `{PyValue value}
    `{Documents value disk} (files : list string) (dry_run : bool) (n : nat)
    (d : disk) :
  (process_all files dry_run n d).1
  = n + length (filter (λ b, b = true) (file_results files dry_run d)).
Proof.
  revert n d. induction files as [|f files IH]; intros n d; simpl; [lia |].
  destruct (process_footprint_file f dry_run d) as [b d'].
  rewrite IH. destruct b.
  - rewrite filter_cons_True by done. simpl. lia.
  - rewrite filter_cons_False by done. lia.
Qed.

(** C7.  The exit status of [main] is 1 exactly when [dry_run] is false
    and at least one file was counted as modified, and 0 otherwise (no
    file modified, or a dry run, or no file found at all); the files
    counted as modified are those for which [process_footprint_file]
    returned [True]. *)
Theorem exit_status_spec {value disk : Type} `{PyValue value}
    `{Documents value disk} (getenv : option string) (directory : string)
    (dry_run : bool) (t : tree) (d : disk) :
  exit_status (main getenv directory dry_run t d)
  = (if bool_decide (dry_run = false
                     ∧ 0 < modified_files (main getenv directory dry_run t d))
     then 1 else 0)
  ∧ modified_files (main getenv directory dry_run t d)
    = length (filter (λ b, b = true)
                (file_results (find_footprint_files (default directory getenv) t)
                              dry_run d)).
Proof.
  unfold main. destruct (find_footprint_files _ t) as [|f fs].
  - cbn -[bool_decide]. rewrite bool_decide_eq_false_2; [done | lia].
  - pose proof (process_all_counts (f :: fs) dry_run 0 d) as Hn.
    destruct (process_all _ _ _ _) as [n d']. simpl fst in Hn.
    split.
    + destruct dry_run, n as [|n]; cbn -[bool_decide].
      * rewrite bool_decide_eq_false_2; [done | by intros [? _]].
      * rewrite bool_decide_eq_false_2; [done | by intros [? _]].
      * rewrite bool_decide_eq_false_2; [done | lia].
      * rewrite bool_decide_eq_true_2; [done | split; [done | lia]].
    + rewrite Hn. by case_match.
Qed.

(** C8.  A file whose load raises, or whose save raises, yields [False]
    from [process_footprint_file] with the disk as it was; the loop goes
    on to the remaining files with the counter not incremented; and the
    total reported by [main] is the number of files found, failed ones
    included. *)
Theorem failure_isolated {value disk : Type} `{PyValue value}
    `{Documents value disk} (filepath : string) (rest : list string)
    (dry_run : bool) (n : nat) (d : disk) :
  load_fails d filepath ∨ (dry_run = false ∧ save_fails d filepath) →
  process_footprint_file filepath dry_run d = (false, d)
  ∧ process_all (filepath :: rest) dry_run n d = process_all rest dry_run n d
  ∧ (∀ getenv directory t,
       total_files (main getenv directory dry_run t d)
       = length (find_footprint_files (default directory getenv) t)).
Proof.
  intros Hfail.
  assert (process_footprint_file filepath dry_run d = (false, d)) as Hp.
  { unfold process_footprint_file.
    destruct Hfail as [Hload | [-> (fp & fp' & Hload & Hsync & Hsave)]].
    - unfold load_fails in Hload. by rewrite Hload.
    - rewrite Hload, Hsync. simpl. by rewrite Hsave. }
  split_and!; [done | | intros; apply main_total].
  simpl. by rewrite Hp.
Qed.

(** C9.  For a file whose reconciliation returns [True]: in a dry run
    [process_footprint_file] returns [True] (the loop increments the
    counter) and the disk is untouched; otherwise the footprint is saved
    to the path it was loaded from and, the save succeeding, the result
    is [True] with the disk the save produced.  A whole dry run leaves
    the disk as it was. *)
Theorem dry_run_no_save {value disk : Type} `{PyValue value}
    `{Documents value disk} (filepath : string) (d : disk)
    (footprint footprint' : state value) :
  from_file d filepath = Some footprint →
  sync_models footprint = Some (true, footprint') →
  process_footprint_file filepath true d = (true, d)
  ∧ (∀ rest n,
       process_all (filepath :: rest) true n d = process_all rest true (S n) d)
  ∧ (∀ d', to_file footprint' filepath d = Some d' →
           process_footprint_file filepath false d = (true, d'))
  ∧ (∀ files n, (process_all files true n d).2 = d).
Proof.
  intros Hload Hsync.
  assert (process_footprint_file filepath true d = (true, d)) as Hp
    by (unfold process_footprint_file; by rewrite Hload, Hsync).
  split_and!; [done | | | intros; apply dry_run_disk_unchanged].
  - intros rest n. simpl. by rewrite Hp.
  - intros d' Hsave. unfold process_footprint_file.
    rewrite Hload, Hsync. simpl. by rewrite Hsave.
Qed.

(** ** The scenarios *)

Ltac by_computation := apply (bool_decide_unpack _); vm_compute; exact I.

(** Section 8, create correctness. *)
Lemma create_correct_witness :
  ∃ s' m,
    sync_models fp_create = Some (true, s')
    ∧ records s' = Some [rec_third_party; rec_created]
    ∧ models s' = [1%positive; 2%positive]
    ∧ model_heap s' !! 2%positive = Some m
    ∧ NoDup (vector_refs m)
    ∧ Forall (λ a, a ∉ dom (coord_heap fp_create)) (vector_refs m).
Proof.
  destruct (create_correct fp_create [rec_third_party])
    as (tp & s' & l & m & Hlast & Hs & Hr & _ & Hms & _ & Hm & _ & Hnd & Hnew & _).
  - reflexivity.
  - apply Exists_cons_hd. reflexivity.
  - repeat constructor.
  - injection Hlast as <-. exists s', m.
    assert (l = 2%positive) as ->.
    { pose proof Hs as Hs'. vm_compute in Hs'. injection Hs' as <-.
      vm_compute in Hms. by injection Hms as <-. }
    split_and!; [exact Hs | exact Hr | exact Hms | exact Hm | exact Hnd
                 | exact Hnew].
Defined.

(** Section 8, update correctness: only the position differs, and the new
    position is a vector object of its own. *)
Lemma update_correct_witness :
  ∃ s' pm',
    sync_models fp_update = Some (true, s')
    ∧ changed_fields rec_source rec_target = [position]
    ∧ view s' 2%positive = Some rec_updated
    ∧ view s' 1%positive = Some rec_source
    ∧ model_heap s' !! 2%positive = Some pm'
    ∧ (Model.pos pm' ∉ dom (coord_heap fp_update))
    ∧ Model.scale pm' = 5%positive ∧ Model.rotate pm' = 6%positive.
Proof.
  destruct (update_correct fp_update 1%positive 2%positive)
    as (tr & pr & b & s' & pm & pm' & Ht & Hp & Hs & Hb & Hp' & _ & Hother
        & Hpm & Hpm' & _ & R1 & R2 & R3).
  - by_computation.
  - reflexivity.
  - injection Ht as <-. injection Hp as <-. injection Hpm as <-.
    assert (b = true) as -> by (apply Hb; discriminate).
    exists s', pm'. split_and!; [exact Hs | reflexivity | exact Hp' | | done
                                 | exact R1 | exact R2 | exact R3].
    apply Hother; [discriminate | reflexivity].
Defined.

Lemma sync_models_fixed_point_witness :
  ∃ b s', sync_models fp_create = Some (b, s')
          ∧ sync_models s' = Some (false, s').
Proof.
  apply (sync_models_fixed_point fp_create).
  - by_computation.
  - intros t pl tr Hc Hv. injection Hc as <- <-. injection Hv as <-.
    repeat split.
  - intros t tr Hc Hv. injection Hc as <-. injection Hv as <-. reflexivity.
Defined.

Lemma no_third_party_unmodified_witness :
  sync_models fp_project_only = Some (false, fp_project_only).
Proof.
  destruct (records fp_project_only) as [rs|] eqn:Hrs; [| discriminate Hrs].
  apply (no_third_party_unmodified fp_project_only rs Hrs).
  injection Hrs as <-. repeat constructor.
Defined.

Lemma third_party_not_mutated_witness :
  ∃ b s' tm tr,
    sync_models fp_update = Some (b, s')
    ∧ model_heap fp_update !! 1%positive = Some tm
    ∧ view fp_update 1%positive = Some tr
    ∧ model_heap s' !! 1%positive = Some tm ∧ view s' 1%positive = Some tr
    ∧ (∀ l m' i a',
         model_heap s' !! l = Some m' →
         vector_refs m' !! i = Some a' →
         (∀ m, model_heap fp_update !! l = Some m → vector_refs m !! i ≠ Some a') →
         (a' ∉ dom (coord_heap fp_update)) ∧ (a' ∉ vector_refs tm)).
Proof.
  apply (third_party_not_mutated fp_update 1%positive (Some 2%positive)).
  - by_computation.
  - reflexivity.
Defined.

Lemma both_tokens_create_witness :
  ∃ t s',
    classify fp_both_tokens = Some (Some t, None)
    ∧ view fp_both_tokens t = Some rec_both
    ∧ sync_models fp_both_tokens = Some (true, s')
    ∧ records s' = Some [rec_both; derived_record rec_both].
Proof.
  apply (both_tokens_create fp_both_tokens [] [] rec_both).
  - reflexivity.
  - reflexivity.
  - reflexivity.
  - constructor.
Defined.

(** Section 8, failure isolation: the malformed document is skipped and
    the valid one is reconciled and saved. *)
Lemma failure_isolated_witness :
  let o := main None "lib" false dir_two disk_two in
  total_files o = 2 ∧ modified_files o = 1 ∧ exit_status o = 1
  ∧ disk_after o
    = <["lib/good.kicad_mod" := Parsed fp_update_after]> disk_two.
Proof.
  destruct (failure_isolated "lib/bad.kicad_mod" ["lib/good.kicad_mod"]
              false 0 disk_two) as (_ & Hloop & _).
  - left. reflexivity.
  - unfold main.
    change (find_footprint_files (default "lib" None) dir_two)
      with ["lib/bad.kicad_mod"; "lib/good.kicad_mod"].
    cbv beta iota zeta. rewrite Hloop. vm_compute. done.
Defined.

(** Section 8, dry run: counted as modified, nothing written. *)
Lemma dry_run_no_save_witness :
  process_footprint_file "lib/good.kicad_mod" true disk_two = (true, disk_two)
  ∧ process_footprint_file "lib/good.kicad_mod" false disk_two
    = (true, <["lib/good.kicad_mod" := Parsed fp_update_after]> disk_two).
Proof.
  destruct (dry_run_no_save "lib/good.kicad_mod" disk_two fp_update
              fp_update_after) as (Hdry & _ & Hsave & _).
  - reflexivity.
  - reflexivity.
  - split; [exact Hdry |]. apply Hsave. reflexivity.
Defined.

(** The empty collection: nothing to do. *)
Example empty_collection_unmodified :
  sync_models (State ∅ ∅ [] : state pyfloat)
  = Some (false, State ∅ ∅ []).
Proof. reflexivity. Qed.

(** Section 8, dry run over the whole directory. *)
Example dry_run_scenario :
  let o := main None "lib" true dir_two disk_two in
  total_files o = 2 ∧ modified_files o = 1 ∧ exit_status o = 0
  ∧ disk_after o = disk_two.
Proof. vm_compute. done. Qed.

(** A NaN in the third-party position: the first call copies the vector,
    after which the project position holds the very same float objects
    and compares equal, so the second call reports nothing to do. *)
Example nan_vector_first_call :
  sync_models fp_nan_vector = Some (true, fp_nan_vector_after).
Proof. reflexivity. Qed.

Example nan_vector_second_call :
  sync_models fp_nan_vector_after = Some (false, fp_nan_vector_after).
Proof. reflexivity. Qed.

Example nan_vector_output :
  sync_models_io fp_nan_vector
  = Some (true, fp_nan_vector_after, ["  Updated Coordinate"])
  ∧ sync_models_io fp_nan_vector_after = Some (false, fp_nan_vector_after, []).
Proof. split; reflexivity. Qed.

(** A NaN opacity differs from itself, also as one and the same float
    object: the first call assigns the third-party opacity object to the
    project entry, and the next call still reports a change. *)
Example nan_opacity_every_call :
  ∃ s' r', sync_models fp_nan_opacity = Some (true, s')
           ∧ view s' 2%positive = Some r'
           ∧ r_opacity r' = num 1 PrimFloat.nan
           ∧ ∃ s'', sync_models s' = Some (true, s'').
Proof.
  eexists _, _. split; [reflexivity |]. split; [reflexivity |].
  split; [reflexivity |]. eexists. reflexivity.
Qed.

Example nan_opacity_output :
  ∃ s' s'', sync_models_io fp_nan_opacity = Some (true, s', ["  Updated opacity"])
            ∧ sync_models_io s' = Some (true, s'', ["  Updated opacity"]).
Proof. eexists _, _. split; reflexivity. Qed.

(** No tolerance: a difference in the last bit is a difference. *)
Example last_bit_counts :
  ∃ s', sync_models_io fp_last_bit = Some (true, s', ["  Updated Coordinate"]).
Proof. eexists. reflexivity. Qed.

(** The comparison is [==] on numbers, not a comparison of bits: a
    negative zero is not told apart from a positive one, and the project
    entry keeps its own. *)
Example signed_zero_ignored :
  sync_models fp_signed_zero = Some (false, fp_signed_zero).
Proof. reflexivity. Qed.

(** * Further properties *)

(** ** Reconciliation: invariants and frame *)

Section Outcomes.
Context {value : Type} `{PyValue value}.
Implicit Types (s : state value) (r : ModelRecord value).

(** The three ways a call on a well-formed footprint can go. *)
Lemma sync_models_cases s :
  wf s →
  (∃ pl, classify s = Some (None, pl) ∧ sync_models s = Some (false, s))
  ∨ (∃ t tr s' l m,
       classify s = Some (Some t, None)
       ∧ view s t = Some tr
       ∧ sync_models s = Some (true, s')
       ∧ models s' = models s ++ [l]
       ∧ model_heap s !! l = None
       ∧ model_heap s' = <[l := m]> (model_heap s)
       ∧ coord_heap s ⊆ coord_heap s'
       ∧ view s' l = Some (derived_record tr))
  ∨ (∃ t p tr pr s',
       classify s = Some (Some t, Some p)
       ∧ view s t = Some tr ∧ view s p = Some pr ∧ t ≠ p
       ∧ sync_models s
         = Some (negb (bool_decide (changed_fields tr pr = [])), s')
       ∧ view s' p = Some (synced_record tr pr)
       ∧ frame p s s'
       ∧ (changed_fields tr pr = [] → s' = s)).
Proof.
  intros Hwf. pose proof (classify_spec s Hwf) as Hc.
  destruct (last_with (on_record has_third_party_token s) (models s))
    as [t|] eqn:H3.
  - destruct (last_with (on_record project_only s) (models s)) as [p|] eqn:Hp.
    + right. right.
      destruct (sync_models_update s t p Hwf Hc)
        as (tr & pr & s' & ? & ? & ? & ? & ? & ? & ?).
      by exists t, p, tr, pr, s'.
    + right. left.
      destruct (sync_models_create s t Hwf Hc)
        as (tr & s' & l & m & ? & ? & ? & ? & ? & ? & ? & _).
      by exists t, tr, s', l, m.
  - left. eexists. split; [exact Hc |].
    by rewrite (sync_models_unfold s Hwf), H3.
Qed.

Lemma view_after_create s s' l m x r :
  model_heap s !! l = None →
  model_heap s' = <[l := m]> (model_heap s) →
  coord_heap s ⊆ coord_heap s' →
  view s x = Some r → view s' x = Some r.
Proof.
  intros Hfresh Hmh Hch. apply view_mono; [done |].
  rewrite Hmh. by apply insert_subseteq.
Qed.

Lemma view_live_in_heap s l r : view s l = Some r → is_Some (model_heap s !! l).
Proof. intros (m & Hm & _)%view_Some. eauto. Qed.
End Outcomes.

(** X1.  [sync_models] returns on every well-formed footprint, and the
    footprint it leaves is well-formed again: every entry of the list is
    a live model with three live vectors. *)
Theorem sync_models_preserves_wf {value : Type} `{PyValue value}
    (s : state value) :
  wf s → ∃ b s', sync_models s = Some (b, s') ∧ wf s'.
Proof.
  intros Hwf.
  destruct (sync_models_cases s Hwf)
    as [(pl & _ & Hs)
       | [(t & tr & s' & l & m & _ & _ & Hs & Hms & Hfresh & Hmh & Hch & Hvl)
         | (t & p & tr & pr & s' & _ & _ & _ & _ & Hs & Hp' & Hf & _)]].
  - by exists false, s.
  - exists true, s'. split; [done |]. unfold wf. rewrite Hms.
    apply Forall_app. split; [| apply Forall_singleton; eauto].
    eapply Forall_impl; [exact Hwf |]. simpl. intros x [r Hr].
    exists r. by eapply view_after_create.
  - eexists _, s'. split; [exact Hs |]. unfold wf.
    rewrite (frame_list _ _ _ Hf).
    eapply Forall_impl; [exact Hwf |]. simpl. intros x [r Hr].
    destruct (decide (x = p)) as [-> | Hx]; [eauto |].
    exists r. by eapply frame_view.
Qed.

Lemma sync_models_preserves_wf_witness :
  ∃ b s', sync_models fp_update = Some (b, s') ∧ wf s'.
Proof. apply (sync_models_preserves_wf fp_update). by_computation. Defined.

(** X2.  A call that returns [False] has changed nothing: the store after
    the call is the store before it. *)
Theorem unmodified_leaves_store {value : Type} `{PyValue value}
    (s : state value) :
  wf s →
  ∃ b s', sync_models s = Some (b, s') ∧ (b = false → s' = s).
Proof.
  intros Hwf.
  destruct (sync_models_cases s Hwf)
    as [(pl & _ & Hs)
       | [(t & tr & s1 & l & m & _ & _ & Hs & _)
         | (t & p & tr & pr & s1 & _ & _ & _ & _ & Hs & _ & _ & Hsame)]].
  - by exists false, s.
  - by exists true, s1.
  - eexists _, s1. split; [exact Hs |]. intros Hb.
    apply Hsame. apply negb_false_iff, bool_decide_eq_true in Hb. exact Hb.
Qed.

Lemma unmodified_leaves_store_witness :
  ∃ b s', sync_models fp_update_after = Some (b, s')
          ∧ (b = false → s' = fp_update_after).
Proof. apply (unmodified_leaves_store fp_update_after). by_computation. Defined.

(** X3.  [sync_models] never removes or reorders entries of
    [footprint.models]: the list afterwards is the old list, or the old
    list followed by one reference to a model object that did not exist
    before; and the list grows only when no project record was bound. *)
Theorem models_only_appended {value : Type} `{PyValue value}
    (s : state value) :
  wf s →
  ∃ b s', sync_models s = Some (b, s')
    ∧ (models s' = models s
       ∨ ∃ l t, models s' = models s ++ [l]
                ∧ model_heap s !! l = None
                ∧ b = true
                ∧ classify s = Some (Some t, None)).
Proof.
  intros Hwf.
  destruct (sync_models_cases s Hwf)
    as [(pl & _ & Hs)
       | [(t & tr & s' & l & m & Hc & _ & Hs & Hms & Hfresh & _)
         | (t & p & tr & pr & s' & _ & _ & _ & _ & Hs & _ & Hf & _)]].
  - exists false, s. split; [done | by left].
  - exists true, s'. split; [done |]. right. by exists l, t.
  - eexists _, s'. split; [exact Hs |]. left. apply Hf.
Qed.

Lemma models_only_appended_witness :
  ∃ b s', sync_models fp_create = Some (b, s')
    ∧ (models s' = models fp_create
       ∨ ∃ l t, models s' = models fp_create ++ [l]
                ∧ model_heap fp_create !! l = None
                ∧ b = true
                ∧ classify fp_create = Some (Some t, None)).
Proof. apply (models_only_appended fp_create). by_computation. Defined.

(** X4.  Whatever the call does, every record that was in the footprint
    keeps its path, and every record other than the bound project record
    reads exactly as before. *)
Theorem existing_records_kept {value : Type} `{PyValue value}
    (s : state value) (tp pl : option loc) :
  wf s →
  classify s = Some (tp, pl) →
  ∃ b s', sync_models s = Some (b, s')
    ∧ ∀ l r, view s l = Some r →
        (∃ r', view s' l = Some r' ∧ r_path r' = r_path r)
        ∧ (pl ≠ Some l → view s' l = Some r).
Proof.
  intros Hwf Hc.
  destruct (sync_models_cases s Hwf)
    as [(pl' & _ & Hs)
       | [(t & tr & s' & l0 & m & Hc' & _ & Hs & _ & Hfresh & Hmh & Hch & _)
         | (t & p & tr & pr & s' & Hc' & _ & Hp & _ & Hs & Hp' & Hf & _)]].
  - exists false, s. split; [done |]. intros l r Hr. split; [eauto | done].
  - exists true, s'. split; [done |]. intros l r Hr.
    assert (view s' l = Some r) by by eapply view_after_create.
    split; [eauto | done].
  - eexists _, s'. split; [exact Hs |]. intros l r Hr.
    assert (pl = Some p) as -> by congruence.
    destruct (decide (l = p)) as [-> | Hl].
    + split; [| done]. exists (synced_record tr pr). split; [done |].
      simpl. congruence.
    + assert (view s' l = Some r) by by eapply frame_view.
      split; [eauto | done].
Qed.

Lemma existing_records_kept_witness :
  ∃ b s', sync_models fp_update = Some (b, s')
    ∧ ∀ l r, view fp_update l = Some r →
        (∃ r', view s' l = Some r' ∧ r_path r' = r_path r)
        ∧ (Some 2%positive ≠ Some l → view s' l = Some r).
Proof.
  apply (existing_records_kept fp_update (Some 1%positive)).
  - by_computation.
  - reflexivity.
Defined.

Section AgreementProps.
Context {value : Type} `{PyValue value}.
Implicit Types (s : state value) (r : ModelRecord value).

Lemma in_line_derived (tr : ModelRecord value) : in_line tr (derived_record tr).
Proof. unfold in_line, derived_record. simpl. split_and!; auto. Qed.

Lemma in_line_synced (tr pr : ModelRecord value) :
  in_line tr (synced_record tr pr).
Proof.
  unfold in_line, synced_record. simpl. split_and!.
  - destruct (Coordinate.eqb (r_position pr) (r_position tr)) eqn:E; auto.
  - destruct (Coordinate.eqb (r_scale pr) (r_scale tr)) eqn:E; auto.
  - destruct (Coordinate.eqb (r_rotation pr) (r_rotation tr)) eqn:E; auto.
  - by destruct (r_hidden pr), (r_hidden tr).
  - destruct (py_eq (r_opacity pr) (r_opacity tr)) eqn:E; auto.
Qed.

Lemma project_only_has_token (r : ModelRecord value) :
  project_only r = true → has_project_token r = true.
Proof. unfold project_only. by intros [_ ?]%andb_true_iff. Qed.

Lemma last_with_filter {A} (P : A → bool) (Q : A → Prop)
    `{∀ x, Decision (Q x)} (xs : list A) :
  (∀ x, P x = true → Q x) →
  last_with P (filter Q xs) = last_with P xs.
Proof.
  intros HPQ. induction xs as [|x xs IH]; [done |].
  rewrite last_with_cons, <- IH.
  destruct (decide (Q x)) as [Hq | Hq].
  - rewrite filter_cons_True by done. by rewrite last_with_cons.
  - rewrite filter_cons_False by done.
    destruct (P x) eqn:HP; [by destruct Hq; apply HPQ |].
    by destruct (last_with P (filter Q xs)).
Qed.
End AgreementProps.

(** X5.  After every call in which a third-party record is bound, the
    footprint holds a project record (the bound one, or the one just
    appended) whose path carries the project token and whose position,
    scale, rotation, hidden flag and opacity are each the third-party
    record's value or [==] to it. *)
Theorem project_record_in_line {value : Type} `{PyValue value}
    (s : state value) (t : loc) (pl : option loc) :
  wf s →
  classify s = Some (Some t, pl) →
  ∃ b s' p tr pr',
    sync_models s = Some (b, s')
    ∧ view s' t = Some tr
    ∧ p ∈ models s'
    ∧ view s' p = Some pr'
    ∧ has_project_token pr' = true
    ∧ in_line tr pr'.
Proof.
  intros Hwf Hc.
  destruct (sync_models_cases s Hwf)
    as [(pl' & Hc' & _)
       | [(t' & tr & s' & l & m & Hc' & Ht & Hs & Hms & Hfresh & Hmh & Hch & Hvl)
         | (t' & p & tr & pr & s' & Hc' & Ht & Hp & Htp & Hs & Hp' & Hf & _)]].
  - congruence.
  - assert (t' = t) as -> by congruence.
    exists true, s', l, tr, (derived_record tr). split_and!; try done.
    + by eapply view_after_create.
    + rewrite Hms. apply elem_of_app. right. by apply list_elem_of_singleton.
    + apply in_line_derived.
  - assert (t' = t) as -> by congruence.
    destruct (classify_bound s _ _ Hwf Hc') as [_ Hb].
    destruct (Hb p eq_refl) as (Hin & pr0 & Hpr0 & Hpo).
    assert (pr0 = pr) as -> by congruence.
    eexists _, s', p, tr, (synced_record tr pr).
    split_and!; [exact Hs | | | done | |].
    + by eapply frame_view.
    + by rewrite (frame_list _ _ _ Hf).
    + by apply project_only_has_token.
    + apply in_line_synced.
Qed.

Lemma project_record_in_line_witness :
  ∃ b s' p tr pr',
    sync_models fp_all_differ = Some (b, s')
    ∧ view s' 1%positive = Some tr
    ∧ p ∈ models s'
    ∧ view s' p = Some pr'
    ∧ has_project_token pr' = true
    ∧ in_line tr pr'.
Proof.
  apply (project_record_in_line fp_all_differ 1%positive (Some 2%positive)).
  - by_computation.
  - reflexivity.
Defined.

(** X6.  Entries whose path carries neither token play no part in the
    scan: dropping them all from the list leaves both bindings as they
    are. *)
Theorem unrelated_entries_ignored {value : Type} `{PyValue value}
    (s : state value) :
  wf s →
  classify (State (coord_heap s) (model_heap s)
                  (filter (λ l, bears_token s l = true) (models s)))
  = classify s.
Proof.
  intros Hwf.
  set (s0 := State (coord_heap s) (model_heap s)
                   (filter (λ l, bears_token s l = true) (models s))).
  assert (wf s0) as Hwf0.
  { unfold wf, s0. simpl. apply Forall_forall. intros l Hl.
    apply list_elem_of_filter in Hl as [_ Hl].
    unfold wf in Hwf. rewrite Forall_forall in Hwf. by apply Hwf. }
  rewrite (classify_spec s Hwf), (classify_spec s0 Hwf0).
  unfold s0. simpl.
  change (on_record has_third_party_token
            (State (coord_heap s) (model_heap s)
               (filter (λ l, bears_token s l = true) (models s))))
    with (on_record has_third_party_token s).
  change (on_record project_only
            (State (coord_heap s) (model_heap s)
               (filter (λ l, bears_token s l = true) (models s))))
    with (on_record project_only s).
  rewrite !last_with_filter; [done | |].
  - intros l. unfold bears_token, on_record, project_only.
    destruct (view s l) as [r|]; [| done].
    intros [_ ->]%andb_true_iff. apply orb_true_r.
  - intros l. unfold bears_token, on_record.
    destruct (view s l) as [r|]; [| done]. by intros ->.
Qed.

Lemma unrelated_entries_ignored_witness :
  classify (State (coord_heap fp_with_unrelated) (model_heap fp_with_unrelated)
                  [1%positive; 3%positive])
  = classify fp_with_unrelated.
Proof.
  apply (unrelated_entries_ignored fp_with_unrelated). by_computation.
Defined.

(** ** The created path *)

Lemma contains_sep_cons c p :
  contains "/" (String c p) = Ascii.eqb c "/" || contains "/" p.
Proof.
  cbn [contains]. f_equal.
  destruct (Ascii.eqb_spec c "/") as [-> | Hne].
  - apply prefix_spec. by exists p.
  - destruct (String.prefix "/" (String c p)) eqn:Hp; [| done].
    apply prefix_spec in Hp as [r Hr]. rewrite append_cons in Hr. congruence.
Qed.

Lemma basename_from_spec acc p :
  (contains "/" p = false ∧ basename_from acc p = acc)
  ∨ (contains "/" (basename_from acc p) = false
     ∧ ∃ d, p = d +:+ "/" +:+ basename_from acc p).
Proof.
  revert acc. induction p as [|c p IH]; intros acc; [by left |].
  cbn [basename_from]. rewrite contains_sep_cons.
  destruct (Ascii.eqb_spec c "/") as [-> | Hne].
  - right. destruct (IH p) as [[Hno ->] | [Hno [d Hd]]].
    + split; [done |]. by exists "".
    + split; [done |]. exists (String "/" d). rewrite append_cons. congruence.
  - destruct (IH acc) as [[Hno ->] | [Hno [d Hd]]]; [by left |].
    right. split; [done |]. exists (String c d). rewrite append_cons. congruence.
Qed.

(** The basename holds no separator, and is the whole path or what
    follows a separator of it. *)
Lemma basename_spec p :
  contains "/" (basename p) = false
  ∧ (basename p = p ∨ ∃ d, p = d +:+ "/" +:+ basename p).
Proof.
  unfold basename. destruct (basename_from_spec p p) as [[Hno ->] | [Hno Hd]].
  - split; [done | by left].
  - split; [done | by right].
Qed.

Lemma basename_derived b :
  contains "/" b = false → basename (project_models_dir +:+ b) = b.
Proof. apply (basename_sep "${KIPRJMOD}/3d-models" b). Qed.

(** X7.  On the create path the appended record keeps the file name of
    the third-party record and nothing of its directory: the new path is
    ["${KIPRJMOD}/3d-models/"] followed by a name without separator, and
    its basename is the third-party basename. *)
Theorem created_keeps_filename {value : Type} `{PyValue value}
    (s : state value) (rs : list (ModelRecord value))
    (tp : ModelRecord value) :
  records s = Some rs →
  last_with has_third_party_token rs = Some tp →
  last_with project_only rs = None →
  ∃ s' new name,
    sync_models s = Some (true, s')
    ∧ records s' = Some (rs ++ [new])
    ∧ r_path new = "${KIPRJMOD}/3d-models/" +:+ name
    ∧ contains "/" name = false
    ∧ basename (r_path new) = basename (r_path tp).
Proof.
  intros Hrs Htp Hpl.
  destruct (create_records s rs tp Hrs Htp Hpl) as (t & s' & _ & _ & Hs & Hr).
  destruct (basename_spec (r_path tp)) as [Hno _].
  exists s', (derived_record tp), (basename (r_path tp)).
  split_and!; [done | done | done | done |].
  by apply basename_derived.
Qed.

Lemma created_keeps_filename_witness :
  ∃ s' new name,
    sync_models fp_create = Some (true, s')
    ∧ records s' = Some ([rec_third_party] ++ [new])
    ∧ r_path new = "${KIPRJMOD}/3d-models/" +:+ name
    ∧ contains "/" name = false
    ∧ basename (r_path new) = basename (r_path rec_third_party).
Proof.
  apply (created_keeps_filename fp_create [rec_third_party] rec_third_party);
    reflexivity.
Defined.

(** X8.  Edge cases of the created path: a third-party path that ends in
    a separator yields the bare directory ["${KIPRJMOD}/3d-models/"], and a
    third-party path without any separator is appended whole. *)
Theorem created_path_edge_cases {value : Type} `{PyValue value}
    (s : state value) (rs : list (ModelRecord value))
    (tp : ModelRecord value) :
  records s = Some rs →
  last_with has_third_party_token rs = Some tp →
  last_with project_only rs = None →
  ∃ s' new,
    sync_models s = Some (true, s')
    ∧ records s' = Some (rs ++ [new])
    ∧ (∀ d, r_path tp = d +:+ "/" → r_path new = "${KIPRJMOD}/3d-models/")
    ∧ (contains "/" (r_path tp) = false →
       r_path new = "${KIPRJMOD}/3d-models/" +:+ r_path tp).
Proof.
  intros Hrs Htp Hpl.
  destruct (create_records s rs tp Hrs Htp Hpl) as (t & s' & _ & _ & Hs & Hr).
  exists s', (derived_record tp). split_and!; [done | done | |].
  - intros d Hd. unfold derived_record. simpl.
    assert (basename (r_path tp) = "") as ->; [| done].
    rewrite Hd. apply (basename_sep d ""). done.
  - intros Hno. unfold derived_record. simpl.
    by rewrite (basename_no_sep _ Hno).
Qed.

Lemma created_path_edge_cases_witness :
  ∃ s' new,
    sync_models fp_trailing_sep = Some (true, s')
    ∧ records s' = Some ([rec_trailing_sep] ++ [new])
    ∧ r_path new = "${KIPRJMOD}/3d-models/".
Proof.
  destruct (created_path_edge_cases fp_trailing_sep [rec_trailing_sep]
              rec_trailing_sep)
    as (s' & new & Hs & Hr & Hsep & _); [reflexivity.. |].
  exists s', new. split_and!; [done | done |].
  apply (Hsep "${KICAD_3RD_PARTY}/lib"). reflexivity.
Defined.

(** ** Console output *)

Section Output.
Context {value : Type} `{PyValue value}.
Implicit Types (s : state value).

#[local] Arguments copy_coord : simpl never.
#[local] Arguments setattr : simpl never.

Ltac split_binds :=
  repeat (simpl;
          match goal with
          | |- context [mbind _ ?o] =>
              let x := fresh in destruct o as [x|] eqn:?; [try destruct x |]
          | |- context [if ?c then _ else _] => destruct c eqn:?
          end);
  simpl; try done.

(** The flag going into a step only passes through it. *)
Lemma sync_coord_flag f set t p b s :
  sync_coord f set t p (b, s)
  = (λ r, (r.1 || b, r.2)) <$> sync_coord f set t p (false, s).
Proof. unfold sync_coord. split_binds. Qed.

Lemma sync_hide_flag t p b s :
  sync_hide t p (b, s) = (λ r, (r.1 || b, r.2)) <$> sync_hide t p (false, s).
Proof. unfold sync_hide. split_binds. Qed.

Lemma sync_opacity_flag t p b s :
  sync_opacity t p (b, s)
  = (λ r, (r.1 || b, r.2)) <$> sync_opacity t p (false, s).
Proof. unfold sync_opacity. split_binds. Qed.

(** A step with output is the step, plus its line when it assigned. *)
Lemma sync_coord_io_step line f set t p b s out :
  sync_coord_io line f set t p (b, s, out)
  = (λ r, (r.1 || b, r.2, if r.1 then out ++ [line] else out))
      <$> sync_coord f set t p (false, s).
Proof. unfold sync_coord_io, sync_coord. split_binds. Qed.

Lemma sync_hide_io_step t p b s out :
  sync_hide_io t p (b, s, out)
  = (λ r, (r.1 || b, r.2,
           if r.1 then out ++ [field_message hidden] else out))
      <$> sync_hide t p (false, s).
Proof. unfold sync_hide_io, sync_hide. split_binds. Qed.

Lemma sync_opacity_io_step t p b s out :
  sync_opacity_io t p (b, s, out)
  = (λ r, (r.1 || b, r.2,
           if r.1 then out ++ [field_message opacity] else out))
      <$> sync_opacity t p (false, s).
Proof. unfold sync_opacity_io, sync_opacity. split_binds. Qed.

#[local] Arguments sync_coord : simpl never.
#[local] Arguments sync_hide : simpl never.
#[local] Arguments sync_opacity : simpl never.
#[local] Arguments sync_coord_io : simpl never.
#[local] Arguments sync_hide_io : simpl never.
#[local] Arguments sync_opacity_io : simpl never.

Ltac pure_flag :=
  try match goal with
      | |- context [sync_coord ?f ?set ?t ?p (?b, ?s)] =>
          lazymatch b with
          | false => fail
          | _ => rewrite (sync_coord_flag f set t p b s)
          end
      | |- context [sync_hide ?t ?p (?b, ?s)] =>
          lazymatch b with
          | false => fail
          | _ => rewrite (sync_hide_flag t p b s)
          end
      | |- context [sync_opacity ?t ?p (?b, ?s)] =>
          lazymatch b with
          | false => fail
          | _ => rewrite (sync_opacity_flag t p b s)
          end
      end.

Ltac next_step lem_io :=
  rewrite lem_io; pure_flag;
  match goal with
  | |- context [fmap _ ?o] =>
      let b := fresh "b" in
      let s := fresh "s" in
      destruct o as [[b s]|]; simpl; [| done]
  end.

Lemma update_io_erase t p s :
  (λ r, (r.1.1, r.1.2)) <$> update_io t p s = update t p s.
Proof.
  unfold update_io, update.
  next_step sync_coord_io_step.
  next_step sync_coord_io_step.
  next_step sync_coord_io_step.
  next_step sync_hide_io_step.
  next_step sync_opacity_io_step.
  by rewrite orb_false_r.
Qed.

(** Without the output, [sync_models_io] is [sync_models]. *)
Lemma sync_models_io_erase s :
  (λ r, (r.1.1, r.1.2)) <$> sync_models_io s = sync_models s.
Proof.
  unfold sync_models_io, sync_models.
  destruct (models s) as [|l ls]; [done |].
  destruct (classify s) as [[[t|] [p|]]|]; simpl; try done.
  - apply update_io_erase.
  - unfold create_io, create. split_binds.
Qed.

(** The lines of the update path: one per field told apart, in the
    order of the five tests. *)
Lemma update_io_out t p s tr pr :
  t ≠ p → view s t = Some tr → view s p = Some pr →
  ∃ b s',
    update_io t p s = Some (b, s', field_message <$> changed_fields tr pr).
Proof.
  intros Htp Ht Hp. unfold update_io.
  rewrite sync_coord_io_step.
  destruct (sync_pos_spec t p s false tr pr Htp Ht Hp)
    as (s1 & -> & Hp1 & F1 & _).
  pose proof (frame_view _ _ _ _ _ F1 Htp Ht) as Ht1. simpl.
  rewrite sync_coord_io_step.
  destruct (sync_scale_spec t p s1 false tr _ Htp Ht1 Hp1)
    as (s2 & -> & Hp2 & F2 & _).
  pose proof (frame_view _ _ _ _ _ F2 Htp Ht1) as Ht2. simpl.
  rewrite sync_coord_io_step.
  destruct (sync_rotate_spec t p s2 false tr _ Htp Ht2 Hp2)
    as (s3 & -> & Hp3 & F3 & _).
  pose proof (frame_view _ _ _ _ _ F3 Htp Ht2) as Ht3. simpl.
  rewrite sync_hide_io_step.
  destruct (sync_hide_spec t p s3 false tr _ Htp Ht3 Hp3)
    as (s4 & -> & Hp4 & F4 & _).
  pose proof (frame_view _ _ _ _ _ F4 Htp Ht3) as Ht4. simpl.
  rewrite sync_opacity_io_step.
  destruct (sync_opacity_spec t p s4 false tr _ Htp Ht4 Hp4)
    as (s5 & -> & _). simpl.
  eexists _, s5. f_equal. f_equal. unfold changed_fields. simpl.
  destruct (Coordinate.eqb (r_position pr) (r_position tr)),
    (Coordinate.eqb (r_scale pr) (r_scale tr)),
    (Coordinate.eqb (r_rotation pr) (r_rotation tr)),
    (Bool.eqb (r_hidden pr) (r_hidden tr)),
    (py_eq (r_opacity pr) (r_opacity tr)); reflexivity.
Qed.

Lemma io_from_pure s b s' :
  sync_models s = Some (b, s') →
  ∃ out, sync_models_io s = Some (b, s', out).
Proof.
  rewrite <- sync_models_io_erase.
  destruct (sync_models_io s) as [[[b0 s0] out]|]; [| done].
  simpl. intros [= <- <-]. eauto.
Qed.

Lemma field_message_not_no (f : FieldName) :
  field_message f ≠ msg_no_models ∧ field_message f ≠ msg_no_third_party.
Proof. by destruct f. Qed.
End Output.

Section OutputCases.
Context {value : Type} `{PyValue value}.
Implicit Types (s : state value).

Lemma create_io_out t s b s' out :
  create_io t s = Some (b, s', out) → ∃ new_path, out = [msg_added new_path].
Proof.
  unfold create_io. intros Hc.
  destruct (model_heap s !! t) as [tm|]; [| done]. simpl in Hc.
  destruct (copy_coord Model.pos t s) as [[lp s1]|]; [| done]. simpl in Hc.
  destruct (copy_coord Model.scale t s1) as [[lsc s2]|]; [| done]. simpl in Hc.
  destruct (copy_coord Model.rotate t s2) as [[lr s3]|]; [| done]. simpl in Hc.
  destruct (model_heap s3 !! t) as [tm'|]; [| done]. simpl in Hc.
  injection Hc as _ _ <-. eauto.
Qed.

Lemma msg_added_not_no new_path :
  msg_added new_path ≠ msg_no_models
  ∧ msg_added new_path ≠ msg_no_third_party.
Proof. split; intros Heq; vm_compute in Heq; discriminate Heq. Qed.
End OutputCases.

(** X9.  On the update path the lines printed are exactly the messages
    of the fields that were told apart, in the order position, scale,
    rotation, visibility, opacity; and the flag and the store are those
    of [sync_models]. *)
Theorem update_prints_changed_fields {value : Type} `{PyValue value}
    (s : state value) (t p : loc) :
  wf s →
  classify s = Some (Some t, Some p) →
  ∃ tr pr b s',
    view s t = Some tr ∧ view s p = Some pr
    ∧ sync_models s = Some (b, s')
    ∧ sync_models_io s
      = Some (b, s', field_message <$> changed_fields tr pr).
Proof.
  intros Hwf Hc.
  pose proof (classify_distinct s t p Hwf Hc) as Htp.
  destruct (classify_bound s _ _ Hwf Hc) as [Ht Hp].
  destruct (Ht t eq_refl) as (Hin & tr & Htr & _).
  destruct (Hp p eq_refl) as (_ & pr & Hpr & _).
  destruct (update_io_out t p s tr pr Htp Htr Hpr) as (b & s' & Hio).
  assert (sync_models_io s
          = Some (b, s', field_message <$> changed_fields tr pr)) as Hrun.
  { unfold sync_models_io. destruct (models s) as [|l ls] eqn:Hls.
    - by apply elem_of_nil in Hin.
    - by rewrite Hc. }
  exists tr, pr, b, s'. split_and!; [done | done | | done].
  by rewrite <- sync_models_io_erase, Hrun.
Qed.

Lemma update_prints_changed_fields_witness :
  ∃ b s',
    sync_models fp_all_differ = Some (b, s')
    ∧ sync_models_io fp_all_differ
      = Some (b, s', ["  Updated Coordinate"; "  Updated scale";
                      "  Updated rotation"; "  Updated visibility";
                      "  Updated opacity"]).
Proof.
  destruct (update_prints_changed_fields fp_all_differ 1%positive 2%positive)
    as (tr & pr & b & s' & Ht & Hp & Hs & Hio).
  - by_computation.
  - reflexivity.
  - injection Ht as <-. injection Hp as <-. by exists b, s'.
Defined.

(** X10.  What is printed tells the outcome.  A call returning [False]
    prints the "No model sections" line (exactly when the list is
    empty), or the "No KICAD_3RD_PARTY model" line, or nothing at all; a
    call returning [True] prints at least one line and none of those
    two. *)
Theorem output_tells_outcome {value : Type} `{PyValue value}
    (s : state value) :
  wf s →
  ∃ b s' out,
    sync_models_io s = Some (b, s', out)
    ∧ sync_models s = Some (b, s')
    ∧ (models s = [] ↔ out = [msg_no_models])
    ∧ (b = false →
       out = [msg_no_models] ∨ out = [msg_no_third_party] ∨ out = [])
    ∧ (b = true →
       out ≠ []
       ∧ Forall (λ line, line ≠ msg_no_models ∧ line ≠ msg_no_third_party)
                out).
Proof.
  intros Hwf.
  destruct (sync_models_cases s Hwf)
    as [(pl & Hc & Hs)
       | [(t & tr & s' & l & m & Hc & Ht & Hs & _)
         | (t & p & tr & pr & s' & Hc & Ht & Hp & Htp & Hs & _)]].
  - destruct (models s) as [|l ls] eqn:Hls.
    + exists false, s, [msg_no_models].
      unfold sync_models_io. rewrite Hls.
      split; [done |]. split; [done |]. split; [done |].
      split; [auto | done].
    + exists false, s, [msg_no_third_party].
      unfold sync_models_io. rewrite Hls, Hc. simpl.
      split; [done |]. split; [done |]. split; [done |].
      split; [auto | done].
  - destruct (io_from_pure s _ _ Hs) as [out Hio].
    assert (∃ new_path, out = [msg_added new_path]) as [new_path ->].
    { unfold sync_models_io in Hio.
      destruct (models s) as [|l0 ls]; [done |]. rewrite Hc in Hio.
      by eapply create_io_out. }
    destruct (classify_bound s _ _ Hwf Hc) as [Hb _].
    destruct (Hb t eq_refl) as (Hin & _).
    exists true, s', [msg_added new_path].
    split; [done |]. split; [done |]. split; [| split; [done |]].
    + split; [intros Hnil; rewrite Hnil in Hin; by apply elem_of_nil in Hin |].
      intros Heq. injection Heq as Heq.
      by destruct (msg_added_not_no new_path).
    + intros _. split; [done |]. apply Forall_singleton, msg_added_not_no.
  - destruct (update_io_out t p s tr pr Htp Ht Hp) as (b & s0 & Hu).
    assert (sync_models_io s
            = Some (b, s0, field_message <$> changed_fields tr pr)) as Hio.
    { unfold sync_models_io. destruct (models s) as [|l ls] eqn:Hls.
      - destruct (classify_bound s _ _ Hwf Hc) as [Hb _].
        destruct (Hb t eq_refl) as (Hin & _).
        rewrite Hls in Hin. by apply elem_of_nil in Hin.
      - by rewrite Hc. }
    assert (sync_models s = Some (b, s0)) as Hs0
      by by rewrite <- sync_models_io_erase, Hio.
    assert (b = negb (bool_decide (changed_fields tr pr = []))) as Hb
      by congruence.
    exists b, s0, (field_message <$> changed_fields tr pr).
    split; [done |]. split; [done |]. split; [| split].
    + split.
      * intros Hnil. destruct (classify_bound s _ _ Hwf Hc) as [Hbd _].
        destruct (Hbd t eq_refl) as (Hin & _).
        rewrite Hnil in Hin. by apply elem_of_nil in Hin.
      * destruct (changed_fields tr pr) as [|f fs]; [done |].
        intros Heq. injection Heq as Heq _.
        by destruct (field_message_not_no f).
    + intros ->. symmetry in Hb.
      apply negb_false_iff, bool_decide_eq_true in Hb. rewrite Hb. auto.
    + intros ->. symmetry in Hb.
      apply negb_true_iff, bool_decide_eq_false in Hb. split.
      * destruct (changed_fields tr pr); [done | discriminate].
      * apply Forall_fmap, Forall_forall. intros f _. simpl.
        apply field_message_not_no.
Qed.

Lemma output_tells_outcome_witness :
  ∃ b s' out,
    sync_models_io fp_project_only = Some (b, s', out)
    ∧ sync_models fp_project_only = Some (b, s')
    ∧ (models fp_project_only = [] ↔ out = [msg_no_models])
    ∧ (b = false →
       out = [msg_no_models] ∨ out = [msg_no_third_party] ∨ out = [])
    ∧ (b = true →
       out ≠ []
       ∧ Forall (λ line, line ≠ msg_no_models ∧ line ≠ msg_no_third_party)
                out).
Proof. apply (output_tells_outcome fp_project_only). by_computation. Defined.

(** ** The pipeline: counters and writes *)

Section Batch.
Context {value disk : Type} `{PyValue value} `{Documents value disk}.

Lemma file_results_length files dry_run (d : disk) :
  length (file_results files dry_run d) = length files.
Proof.
  revert d. induction files as [|f files IH]; intros d; simpl; [done |].
  destruct (process_footprint_file f dry_run d) as [b d']. simpl.
  by rewrite IH.
Qed.

(** What one file can do to the disk. *)
Lemma process_writes filepath dry_run (d : disk) :
  (process_footprint_file filepath dry_run d).2 = d
  ∨ (dry_run = false
     ∧ (process_footprint_file filepath dry_run d).1 = true
     ∧ ∃ footprint footprint',
         from_file d filepath = Some footprint
         ∧ sync_models footprint = Some (true, footprint')
         ∧ to_file footprint' filepath d
           = Some (process_footprint_file filepath dry_run d).2).
Proof.
  unfold process_footprint_file.
  destruct (from_file d filepath) as [fp|] eqn:Hload; [| by left].
  destruct (sync_models fp) as [[[] fp']|] eqn:Hsync; simpl;
    [| by left | by left].
  destruct dry_run; simpl; [by left |].
  destruct (to_file fp' filepath d) as [d'|] eqn:Hsave; [| by left].
  right. split_and!; [done | done |]. by exists fp, fp'.
Qed.

(** The flag of one file is decided by what the file loads as, up to the
    success of the save. *)
Lemma process_flag_dry filepath (d : disk) :
  (process_footprint_file filepath true d).1
  = match from_file d filepath ≫= sync_models with
    | Some (b, _) => b
    | None => false
    end.
Proof.
  unfold process_footprint_file.
  destruct (from_file d filepath) as [fp|]; [| done]. simpl.
  by destruct (sync_models fp) as [[[] fp']|].
Qed.
End Batch.

(** X11.  [main] never reports more modified files than files
    processed. *)
Theorem modified_at_most_total {value disk : Type} `{PyValue value}
    `{Documents value disk} (getenv : option string) (directory : string)
    (dry_run : bool) (t : tree) (d : disk) :
  modified_files (main getenv directory dry_run t d)
  ≤ total_files (main getenv directory dry_run t d).
Proof.
  unfold main. destruct (find_footprint_files _ t) as [|f fs]; [done |].
  pose proof (process_all_counts (f :: fs) dry_run 0 d) as Hn.
  destruct (process_all _ _ _ _) as [n d']. simpl fst in Hn.
  assert (n ≤ length (f :: fs)) as Hle.
  { rewrite Hn, <- (file_results_length (f :: fs) dry_run d).
    apply length_filter. }
  by case_match.
Qed.

(** X12.  [process_footprint_file] changes the disk in one way only: by
    the successful save, outside a dry run, of a footprint that
    [sync_models] reported modified, to the path it was loaded from.  A
    file that fails to load, needs no change, or is met in a dry run is
    never written. *)
Theorem disk_changes_only_by_save {value disk : Type} `{PyValue value}
    `{Documents value disk} (filepath : string) (dry_run : bool) (d : disk) :
  (process_footprint_file filepath dry_run d).2 = d
  ∨ (dry_run = false
     ∧ (process_footprint_file filepath dry_run d).1 = true
     ∧ ∃ footprint footprint',
         from_file d filepath = Some footprint
         ∧ sync_models footprint = Some (true, footprint')
         ∧ to_file footprint' filepath d
           = Some (process_footprint_file filepath dry_run d).2).
Proof.
  unfold process_footprint_file.
  destruct (from_file d filepath) as [fp|] eqn:Hload; [| by left].
  destruct (sync_models fp) as [[[] fp']|] eqn:Hsync; simpl;
    [| by left | by left].
  destruct dry_run; simpl; [by left |].
  destruct (to_file fp' filepath d) as [d'|] eqn:Hsave; [| by left].
  right. split_and!; [done | done |]. by exists fp, fp'.
Qed.

(** X13.  If saving one file leaves what the other files load as, a whole
    batch leaves every file that is not in the list loading as before. *)
Theorem batch_touches_listed_files_only {value disk : Type} `{PyValue value}
    `{Documents value disk} (files : list string) (dry_run : bool) (n : nat)
    (d : disk) (other : string) :
  save_is_local →
  other ∉ files →
  from_file (process_all files dry_run n d).2 other = from_file d other.
Proof.
  intros Hlocal. revert n d.
  induction files as [|f files IH]; intros n d Hother; [done |].
  apply not_elem_of_cons in Hother as [Hne Hother]. simpl.
  destruct (process_writes f dry_run d) as [Hd | (_ & _ & fp & fp' & _ & _ & Hsave)];
    destruct (process_footprint_file f dry_run d) as [b d']; simpl in *.
  - subst d'. by apply IH.
  - rewrite IH by done. by eapply Hlocal.
Qed.

Lemma gmap_save_is_local : @save_is_local _ _ gmap_documents.
Proof.
  intros fp p d d' q [= <-] Hne. simpl. by rewrite lookup_insert_ne.
Qed.

Lemma gmap_save_then_load : @save_then_load _ _ gmap_documents.
Proof.
  intros fp p d d' [= <-]. simpl. by rewrite lookup_insert_eq.
Qed.

Lemma batch_touches_listed_files_only_witness :
  from_file
    (process_all ["lib/good.kicad_mod"] false 0 disk_two).2 "lib/bad.kicad_mod"
  = from_file disk_two "lib/bad.kicad_mod".
Proof.
  apply batch_touches_listed_files_only.
  - apply gmap_save_is_local.
  - by apply not_elem_of_cons; split; [| apply not_elem_of_nil].
Defined.

(** X14.  A dry run and a real run agree on one file, save failures
    apart: a file the real run reports modified is reported by the dry
    run, and a file the dry run reports but the real run does not is one
    whose save raised. *)
Theorem dry_run_predicts {value disk : Type} `{PyValue value}
    `{Documents value disk} (filepath : string) (d : disk) :
  ((process_footprint_file filepath false d).1 = true →
   (process_footprint_file filepath true d).1 = true)
  ∧ ((process_footprint_file filepath true d).1 = true →
     (process_footprint_file filepath false d).1 = false →
     save_fails d filepath).
Proof.
  unfold process_footprint_file, save_fails.
  destruct (from_file d filepath) as [fp|] eqn:Hload; [| done].
  destruct (sync_models fp) as [[[] fp']|] eqn:Hsync; simpl;
    [| done | done].
  destruct (to_file fp' filepath d) as [d'|] eqn:Hsave; simpl.
  - split; [done | discriminate].
  - split; [done |]. intros _ _. by exists fp, fp'.
Qed.

Section TwoRuns.
Context {value disk : Type} `{PyValue value} `{Documents value disk}.

Lemma process_flag_real filepath (d : disk) :
  (∀ (fp : state value) p (d0 : disk), is_Some (to_file fp p d0)) →
  (process_footprint_file filepath false d).1
  = match from_file d filepath ≫= sync_models with
    | Some (b, _) => b
    | None => false
    end.
Proof.
  intros Hsave. unfold process_footprint_file.
  destruct (from_file d filepath) as [fp|]; [| done]. simpl.
  destruct (sync_models fp) as [[[] fp']|]; [| done | done]. simpl.
  by destruct (Hsave fp' filepath d) as [d' ->].
Qed.

Lemma process_keeps_others filepath dry_run (d : disk) other :
  save_is_local → other ≠ filepath →
  from_file (process_footprint_file filepath dry_run d).2 other
  = from_file d other.
Proof.
  intros Hlocal Hne.
  destruct (process_writes filepath dry_run d)
    as [-> | (_ & _ & fp & fp' & _ & _ & Hsave)]; [done |].
  by eapply Hlocal.
Qed.

Lemma counts_agree files n (d1 d2 : disk) :
  save_is_local →
  (∀ (fp : state value) p (d0 : disk), is_Some (to_file fp p d0)) →
  NoDup files →
  (∀ q, q ∈ files → from_file d1 q = from_file d2 q) →
  (process_all files true n d1).1 = (process_all files false n d2).1.
Proof.
  intros Hlocal Hsave. revert n d1 d2.
  induction files as [|f files IH]; intros n d1 d2 Hnd Hsame; [done |].
  apply NoDup_cons in Hnd as [Hf Hnd]. simpl.
  pose proof (process_flag_dry f d1) as Hb1.
  pose proof (process_flag_real f d2 Hsave) as Hb2.
  pose proof (process_dry_run_disk f d1) as Hd1.
  pose proof (λ q, process_keeps_others f false d2 q Hlocal) as Hd2.
  rewrite (Hsame f) in Hb1 by apply list_elem_of_here.
  destruct (process_footprint_file f true d1) as [b1 d1'].
  destruct (process_footprint_file f false d2) as [b2 d2'].
  simpl in *. subst d1'. assert (b1 = b2) as -> by congruence.
  apply IH; [done |]. intros q Hq.
  rewrite Hd2 by (intros ->; done).
  apply Hsame. by apply list_elem_of_further.
Qed.

Lemma sync_models_returns (s : state value) :
  wf s → ∃ b s', sync_models s = Some (b, s').
Proof.
  intros Hwf.
  destruct (sync_models_cases s Hwf)
    as [(pl & _ & Hs)
       | [(t & tr & s1 & l & m & _ & _ & Hs & _)
         | (t & p & tr & pr & s1 & _ & _ & _ & _ & Hs & _)]]; eauto.
Qed.

(** The fixed point of [sync_models], for use on loaded footprints. *)
Lemma second_run_unmodified (s : state value) b s' :
  wf s →
  (∀ t pl tr, classify s = Some (Some t, pl) → view s t = Some tr →
              self_equal tr) →
  (∀ t tr, classify s = Some (Some t, None) → view s t = Some tr →
           contains third_party_token (basename (r_path tr)) = false) →
  sync_models s = Some (b, s') → sync_models s' = Some (false, s').
Proof.
  intros Hwf Hself Hbase Hrun.
  destruct (sync_models_cases s Hwf)
    as [(pl & _ & Hs)
       | [(t & tr & s1 & l & m & Hc & Ht & Hs & Hms & Hfresh & Hmh & Hch & Hvl)
         | (t & p & tr & pr & s1 & Hc & Ht & Hp & Htp & Hs & Hp' & Hf & _)]].
  - congruence.
  - assert (s1 = s') as -> by congruence.
    eapply (second_run_after_create s t tr s' l m); try eassumption.
    + pose proof (Hbase t tr Hc Ht) as Hb.
      rewrite <- derived_path_third_party in Hb. exact Hb.
    + by eapply Hself.
  - assert (s1 = s') as -> by congruence.
    eapply second_run_after_update; eauto.
Qed.
End TwoRuns.

(** X15.  With a store in which saving one file leaves the others alone
    and saves do not fail, a dry run over distinct files counts exactly
    the files a real run from the same disk counts as modified. *)
Theorem dry_run_counts_like_real_run {value disk : Type} `{PyValue value}
    `{Documents value disk} (files : list string) (d : disk) :
  save_is_local →
  (∀ (fp : state value) p (d0 : disk), is_Some (to_file fp p d0)) →
  NoDup files →
  (process_all files true 0 d).1 = (process_all files false 0 d).1.
Proof.
  intros Hlocal Hsave Hnd. by apply counts_agree.
Qed.

Lemma dry_run_counts_like_real_run_witness :
  (process_all ["lib/bad.kicad_mod"; "lib/good.kicad_mod"] true 0 disk_two).1
  = (process_all ["lib/bad.kicad_mod"; "lib/good.kicad_mod"] false 0 disk_two).1.
Proof.
  apply dry_run_counts_like_real_run.
  - apply gmap_save_is_local.
  - intros fp p d0. simpl. eauto.
  - apply NoDup_cons. split; [| apply NoDup_singleton].
    apply not_elem_of_cons. split; [discriminate | apply not_elem_of_nil].
Defined.

(** X16.  With a store that loads back what was saved, processing a file
    a second time right after a real pass reports it unmodified and
    leaves the disk alone, provided the loaded footprint is well-formed,
    the numbers of its bound third-party record are [==] to themselves
    and, on the create path, its basename does not contain the
    third-party token. *)
Theorem second_pass_unmodified {value disk : Type} `{PyValue value}
    `{Documents value disk} (filepath : string) (d : disk)
    (footprint : state value) :
  save_then_load →
  from_file d filepath = Some footprint →
  wf footprint →
  (∀ t pl tr, classify footprint = Some (Some t, pl) →
              view footprint t = Some tr → self_equal tr) →
  (∀ t tr, classify footprint = Some (Some t, None) →
           view footprint t = Some tr →
           contains third_party_token (basename (r_path tr)) = false) →
  ∃ b d',
    process_footprint_file filepath false d = (b, d')
    ∧ process_footprint_file filepath false d' = (false, d').
Proof.
  intros Hround Hload Hwf Hself Hbase.
  destruct (sync_models_returns footprint Hwf) as (b & fp' & Hrun).
  pose proof (second_run_unmodified footprint b fp' Hwf Hself Hbase Hrun)
    as Hagain.
  unfold process_footprint_file at 1 2. rewrite Hload, Hrun.
  destruct b; simpl.
  - destruct (to_file fp' filepath d) as [d'|] eqn:Hsave.
    + exists true, d'. split; [done |].
      unfold process_footprint_file.
      by rewrite (Hround _ _ _ _ Hsave), Hagain.
    + exists false, d. split; [done |].
      unfold process_footprint_file. by rewrite Hload, Hrun, Hsave.
  - exists false, d. split; [done |].
    unfold process_footprint_file. by rewrite Hload, Hrun.
Qed.

Lemma second_pass_unmodified_witness :
  ∃ b d',
    process_footprint_file "lib/good.kicad_mod" false disk_two = (b, d')
    ∧ process_footprint_file "lib/good.kicad_mod" false d' = (false, d').
Proof.
  apply (second_pass_unmodified "lib/good.kicad_mod" disk_two fp_update).
  - apply gmap_save_then_load.
  - reflexivity.
  - by_computation.
  - intros t pl tr Hc Hv. injection Hc as <- <-. injection Hv as <-.
    repeat split.
  - intros t tr Hc Hv. discriminate Hc.
Defined.

(** ** File discovery *)

Lemma tree_induction (P : tree → Prop) :
  (∀ files subdirs, Forall (λ d, P (snd d)) subdirs → P (Dir files subdirs)) →
  ∀ t, P t.
Proof.
  intros HP. fix IH 1. intros [files subdirs]. apply HP.
  induction subdirs as [|[name t] subdirs IHs]; constructor; [apply IH | apply IHs].
Qed.

Lemma string_length_app (a b : string) :
  String.length (a +:+ b) = String.length a + String.length b.
Proof. induction a as [|c a IH]; [done |]. rewrite append_cons. simpl. by rewrite IH. Qed.

Lemma substring_skip (a b : string) n k :
  String.substring (String.length a + n) k (a +:+ b) = String.substring n k b.
Proof. induction a as [|c a IH]; [done |]. rewrite append_cons. simpl. exact IH. Qed.

(** A suffix of [b] is a suffix of [a + b]. *)
Lemma endswith_app a b suf :
  endswith b suf = true → endswith (a +:+ b) suf = true.
Proof.
  unfold endswith. intros [Hle Heq]%andb_true_iff.
  apply Nat.leb_le in Hle. apply bool_decide_eq_true in Heq.
  apply andb_true_iff. split.
  - apply Nat.leb_le. rewrite string_length_app. lia.
  - apply bool_decide_eq_true. rewrite string_length_app.
    replace (String.length a + String.length b - String.length suf)
      with (String.length a + (String.length b - String.length suf)) by lia.
    by rewrite substring_skip.
Qed.

Lemma endswith_path_join root file suf :
  endswith file suf = true → endswith (path_join root file) suf = true.
Proof.
  intros Hf. unfold path_join. repeat case_match; [done | |].
  - by apply endswith_app.
  - apply endswith_app. by apply (endswith_app "/").
Qed.

Lemma find_footprint_files_eq directory t :
  find_footprint_files directory t = flat_map found_in (walk directory t).
Proof.
  unfold find_footprint_files. apply List.flat_map_ext. by intros [root files].
Qed.

Lemma found_count root t :
  length (find_footprint_files root t)
  = length (filter (λ file, is_footprint_file file = true) (all_files t)).
Proof.
  revert root. induction t as [files subdirs IH] using tree_induction.
  intros root. rewrite find_footprint_files_eq. simpl.
  rewrite filter_app, !length_app. f_equal.
  - unfold found_in. simpl. by rewrite length_fmap.
  - clear files. induction IH as [|[name t] subdirs Ht _ IHs]; [done |].
    simpl. rewrite List.flat_map_app, filter_app, !length_app, IHs. f_equal.
    rewrite <- find_footprint_files_eq. apply Ht.
Qed.

Lemma flat_map_flat_map {A B C} (g : B → list C) (w : A → list B) xs :
  flat_map g (flat_map w xs) = flat_map (λ x, flat_map g (w x)) xs.
Proof.
  induction xs as [|x xs IH]; [done |].
  simpl. by rewrite List.flat_map_app, IH.
Qed.

(** X17.  Every path [find_footprint_files] returns ends in
    [.kicad_mod]. *)
Theorem found_files_are_footprints (directory : string) (t : tree) :
  Forall (λ filepath, endswith filepath ".kicad_mod" = true)
         (find_footprint_files directory t).
Proof.
  rewrite find_footprint_files_eq. apply Forall_forall. intros filepath Hin.
  apply list_elem_of_In, List.in_flat_map in Hin as ([root files] & _ & Hin).
  unfold found_in in Hin. simpl in Hin.
  apply list_elem_of_In, list_elem_of_fmap in Hin as (file & -> & Hfile).
  apply list_elem_of_filter in Hfile as [Hsuf _].
  by apply endswith_path_join.
Qed.

Lemma string_app_assoc (a b c : string) : (a +:+ b) +:+ c = a +:+ b +:+ c.
Proof.
  induction a as [|x a IH]; [done |]. by rewrite !append_cons, IH.
Qed.

Lemma is_name_spec name :
  is_name name = true ↔ name ≠ "" ∧ contains "/" name = false.
Proof.
  unfold is_name. rewrite andb_true_iff, !negb_true_iff, bool_decide_eq_false.
  done.
Qed.

Lemma contains_cons tok c s :
  contains tok (String c s) = false → contains tok s = false.
Proof. cbn [contains]. by intros [_ ?]%orb_false_elim. Qed.

Lemma contains_sep_here s : contains "/" (String "/" s) = true.
Proof. cbn [contains]. by destruct s. Qed.

Lemma contains_sep_app a r : contains "/" (a +:+ "/" +:+ r) = true.
Proof.
  induction a as [|x a IH]; [apply contains_sep_here |].
  rewrite append_cons. cbn [contains]. rewrite IH. apply orb_true_r.
Qed.

Lemma no_sep_prefix name :
  contains "/" name = false → String.prefix "/" name = false.
Proof. destruct name; [done |]. cbn [contains]. by intros [? _]%orb_false_elim. Qed.

Lemma get_sep_contains name : ∀ i,
  String.get i name = Some "/"%char → contains "/" name = true.
Proof.
  induction name as [|c name IH]; intros [|i]; simpl; try done.
  - intros [= ->]. apply contains_sep_here.
  - intros Hi. cbn [contains]. rewrite (IH i Hi). apply orb_true_r.
Qed.

Lemma ends_with_sep_name name :
  contains "/" name = false → ends_with_sep name = false.
Proof.
  intros Hno. unfold ends_with_sep.
  destruct (String.get _ name) as [c|] eqn:Hget; [| done].
  destruct (Ascii.eqb_spec c "/"%char) as [-> |]; [| done].
  apply get_sep_contains in Hget. congruence.
Qed.

Lemma ends_with_sep_app a name :
  name ≠ "" → ends_with_sep (a +:+ name) = ends_with_sep name.
Proof.
  intros Hne. unfold ends_with_sep. rewrite string_length_app.
  assert (String.length name ≠ 0) as Hlen by by destruct name.
  replace (String.length a + String.length name - 1)
    with (String.length name - 1 + String.length a) by lia.
  by rewrite <- String.append_correct2.
Qed.

Lemma app_empty a b : a +:+ b = "" → b = "".
Proof. destruct a; [done |]. by rewrite append_cons. Qed.

(** Joining a name puts it after the directory prefix, which is what
    joining the empty string gives. *)
Lemma path_join_name root name :
  is_name name = true → path_join root name = path_join root "" +:+ name.
Proof.
  intros [_ Hno]%is_name_spec. unfold path_join.
  rewrite (no_sep_prefix name Hno). simpl.
  destruct (bool_decide (root = "") || ends_with_sep root).
  - assert (root +:+ "" = root) as ->; [| done].
    clear. induction root as [|c r IH]; [done |]. by rewrite append_cons, IH.
  - by rewrite string_app_assoc.
Qed.

Lemma path_join_below root name :
  is_name name = true →
  path_join (path_join root name) "" = path_join root "" +:+ name +:+ "/".
Proof.
  intros Hname. rewrite (path_join_name root name Hname).
  pose proof Hname as [Hne Hno]%is_name_spec.
  unfold path_join at 1. simpl.
  rewrite (ends_with_sep_app _ name Hne), (ends_with_sep_name name Hno).
  rewrite bool_decide_eq_false_2; [| by intros ?%app_empty].
  simpl. by rewrite string_app_assoc.
Qed.

Lemma tidy_Dir files subdirs :
  tidy (Dir files subdirs) = true →
  Forall (λ f, is_name f = true) files ∧ NoDup files
  ∧ Forall (λ d, is_name d.1 = true) subdirs ∧ NoDup subdirs.*1
  ∧ Forall (λ d, tidy d.2 = true) subdirs.
Proof.
  simpl. rewrite !andb_true_iff, !bool_decide_eq_true, !forallb_forall.
  intros [[[[Hfiles Hnd] Hnames] Hndn] Hsubs].
  split_and!; [| done | | done |]; apply Forall_forall; intros x Hx;
    by apply list_elem_of_In in Hx; auto.
Qed.

(** The search is top-down: a directory's own footprints first, then
    those of each subdirectory in turn. *)
Lemma find_footprint_files_Dir (directory : string)
    (files : list string) (subdirs : list (string * tree)) :
  find_footprint_files directory (Dir files subdirs)
  = (path_join directory
       <$> filter (λ file, is_footprint_file file = true) files)
    ++ flat_map (λ d, find_footprint_files (path_join directory d.1) d.2)
                subdirs.
Proof.
  rewrite find_footprint_files_eq. simpl. f_equal.
  rewrite flat_map_flat_map. apply List.flat_map_ext.
  intros [name t]. by rewrite find_footprint_files_eq.
Qed.

Lemma found_sound t : ∀ root filepath,
  filepath ∈ find_footprint_files root t → footprint_at root t filepath.
Proof.
  induction t as [files subdirs IH] using tree_induction.
  intros root filepath. rewrite find_footprint_files_Dir.
  intros [Hin | Hin]%elem_of_app.
  - apply list_elem_of_fmap in Hin as (file & -> & Hfile).
    apply list_elem_of_filter in Hfile as [Hsuf Hfile].
    by apply footprint_here.
  - apply list_elem_of_In, List.in_flat_map in Hin as ([name sub] & Hd & Hin).
    apply list_elem_of_In in Hd, Hin. rewrite Forall_forall in IH.
    eapply footprint_below; [exact Hd |]. by apply (IH _ Hd).
Qed.

Lemma found_complete root t filepath :
  footprint_at root t filepath → filepath ∈ find_footprint_files root t.
Proof.
  induction 1 as [root files subdirs file Hfile Hsuf
                 | root files subdirs name sub filepath Hd _ IH];
    rewrite find_footprint_files_Dir; apply elem_of_app.
  - left. apply list_elem_of_fmap. exists file. split; [done |].
    by apply list_elem_of_filter.
  - right. apply list_elem_of_In, List.in_flat_map. exists (name, sub).
    split; by apply list_elem_of_In.
Qed.

(** In a tidy tree every path found starts with the directory prefix. *)
Lemma found_below t : ∀ root filepath,
  tidy t = true → filepath ∈ find_footprint_files root t →
  ∃ rest, filepath = path_join root "" +:+ rest.
Proof.
  induction t as [files subdirs IH] using tree_induction.
  intros root filepath (Hfiles & _ & Hnames & _ & Hsubs)%tidy_Dir.
  rewrite find_footprint_files_Dir. intros [Hin | Hin]%elem_of_app.
  - apply list_elem_of_fmap in Hin as (file & -> & [_ Hfile]%list_elem_of_filter).
    rewrite Forall_forall in Hfiles.
    exists file. by apply path_join_name, Hfiles.
  - apply list_elem_of_In, List.in_flat_map in Hin as ([name sub] & Hd & Hin).
    apply list_elem_of_In in Hd, Hin.
    rewrite Forall_forall in IH. rewrite Forall_forall in Hnames.
    rewrite Forall_forall in Hsubs.
    destruct (IH _ Hd _ _ (Hsubs _ Hd) Hin) as (rest & ->).
    simpl. rewrite (path_join_below root name (Hnames _ Hd)).
    exists (name +:+ "/" +:+ rest). by rewrite !string_app_assoc.
Qed.

(** A name up to the first separator is determined by the string. *)
Lemma name_sep_inj a b r1 r2 :
  contains "/" a = false → contains "/" b = false →
  a +:+ "/" +:+ r1 = b +:+ "/" +:+ r2 → a = b.
Proof.
  revert b. induction a as [|x a IH]; intros [|y b] Ha Hb Heq.
  - done.
  - rewrite append_cons in Heq. simpl in Heq. injection Heq as <- _.
    by rewrite contains_sep_here in Hb.
  - rewrite append_cons in Heq. simpl in Heq. injection Heq as -> _.
    by rewrite contains_sep_here in Ha.
  - rewrite !append_cons in Heq. injection Heq as -> Heq.
    f_equal. apply IH; [by eapply contains_cons | by eapply contains_cons | done].
Qed.

Lemma found_below_sub root name sub filepath :
  is_name name = true → tidy sub = true →
  filepath ∈ find_footprint_files (path_join root name) sub →
  ∃ rest, filepath = path_join root "" +:+ name +:+ "/" +:+ rest.
Proof.
  intros Hname Hsub Hin.
  destruct (found_below sub _ _ Hsub Hin) as (rest & ->).
  rewrite (path_join_below root name Hname).
  exists rest. by rewrite !string_app_assoc.
Qed.

Lemma found_NoDup t : ∀ root,
  tidy t = true → NoDup (find_footprint_files root t).
Proof.
  induction t as [files subdirs IH] using tree_induction.
  intros root (Hfiles & Hnd & Hnames & Hndn & Hsubs)%tidy_Dir.
  rewrite find_footprint_files_Dir. apply NoDup_app. split_and!.
  - apply NoDup_fmap_2_strong; [| by apply NoDup_filter].
    rewrite Forall_forall in Hfiles.
    intros f g [_ Hf]%list_elem_of_filter [_ Hg]%list_elem_of_filter.
    rewrite (path_join_name root f), (path_join_name root g) by auto.
    apply String.app_inj.
  - intros filepath Hown Hsub.
    apply list_elem_of_fmap in Hown as (file & -> & [_ Hfile]%list_elem_of_filter).
    apply list_elem_of_In, List.in_flat_map in Hsub as ([name sub] & Hd & Hin).
    apply list_elem_of_In in Hd, Hin.
    rewrite Forall_forall in Hfiles. rewrite Forall_forall in Hnames.
    rewrite Forall_forall in Hsubs.
    destruct (found_below_sub root name sub _ (Hnames _ Hd) (Hsubs _ Hd) Hin)
      as (rest & Heq).
    rewrite (path_join_name root file (Hfiles _ Hfile)) in Heq.
    apply String.app_inj in Heq.
    pose proof (Hfiles _ Hfile) as [_ Hno]%is_name_spec.
    rewrite Heq, contains_sep_app in Hno. done.
  - clear files Hfiles Hnd.
    induction subdirs as [|[name sub] subdirs IHs]; [constructor |].
    apply Forall_cons in IH as [IHsub IH].
    apply Forall_cons in Hnames as [Hname Hnames].
    apply Forall_cons in Hsubs as [Hsub Hsubs].
    rewrite fmap_cons in Hndn. apply NoDup_cons in Hndn as [Hfresh Hndn].
    simpl. apply NoDup_app. split_and!.
    + by apply IHsub.
    + intros filepath Hin Hrest.
      apply list_elem_of_In, List.in_flat_map in Hrest
        as ([name' sub'] & Hd & Hin').
      apply list_elem_of_In in Hd, Hin'.
      rewrite Forall_forall in Hnames. rewrite Forall_forall in Hsubs.
      destruct (found_below_sub root name sub _ Hname Hsub Hin) as (r1 & ->).
      destruct (found_below_sub root name' sub' _ (Hnames _ Hd) (Hsubs _ Hd) Hin')
        as (r2 & Heq).
      apply String.app_inj in Heq.
      apply is_name_spec in Hname as [_ Hno].
      pose proof (Hnames _ Hd) as [_ Hno']%is_name_spec.
      apply name_sep_inj in Heq; [| done..]. simpl in Heq. subst name'.
      apply Hfresh. apply list_elem_of_fmap. by exists (name, sub').
    + by apply IHs.
Qed.

(** X18.  [find_footprint_files] returns exactly the footprint files of
    the tree.  A path is in the result if and only if it is the path of a
    file, at whatever depth, whose name ends in [.kicad_mod], joined to
    the directories above it: none is missed and nothing else is
    reported.  The result has one entry per such file name of the tree.
    And in a tree as a file system has them (names not empty and without
    a separator, none listed twice in its directory) no path is reported
    twice. *)
Theorem found_files_count (directory : string) (t : tree) :
  (∀ filepath,
     filepath ∈ find_footprint_files directory t
     ↔ footprint_at directory t filepath)
  ∧ length (find_footprint_files directory t)
    = length (filter (λ file, is_footprint_file file = true) (all_files t))
  ∧ (tidy t = true → NoDup (find_footprint_files directory t)).
Proof.
  split_and!.
  - intros filepath. split; [apply found_sound | apply found_complete].
  - revert directory. induction t as [files subdirs IH] using tree_induction.
    intros directory. rewrite find_footprint_files_Dir. simpl.
    rewrite filter_app, !length_app, length_fmap. f_equal.
    clear files. induction IH as [|[name t] subdirs Ht _ IHs]; [done |].
    simpl. by rewrite filter_app, !length_app, IHs, Ht.
  - apply found_NoDup.
Qed.

Lemma found_files_count_witness :
  footprint_at "lib" dir_nested "lib/sub/deep/c.kicad_mod"
  ∧ length (find_footprint_files "lib" dir_nested) = 3
  ∧ NoDup (find_footprint_files "lib" dir_nested).
Proof.
  destruct (found_files_count "lib" dir_nested) as (Hiff & Hlen & Hnd).
  split_and!.
  - apply Hiff. by_computation.
  - rewrite Hlen. reflexivity.
  - apply Hnd. reflexivity.
Defined.

Lemma filter_none {A} (P : A → Prop) `{∀ x, Decision (P x)} (xs : list A) :
  Forall (λ x, ¬ P x) xs → filter P xs = [].
Proof.
  induction 1 as [|x xs Hx _ IH]; [done |]. by rewrite filter_cons_False.
Qed.

(** X20.  In a tree without any [.kicad_mod] file [main] stops before the
    loop: exit status 0, nothing counted, and the disk untouched, dry
    run or not. *)
Theorem no_footprints_no_effect {value disk : Type} `{PyValue value}
    `{Documents value disk} (getenv : option string) (directory : string)
    (dry_run : bool) (t : tree) (d : disk) :
  Forall (λ file, is_footprint_file file = false) (all_files t) →
  main getenv directory dry_run t d = Outcome 0 0 0 d.
Proof.
  intros Hnone. unfold main.
  pose proof (found_count (default directory getenv) t) as Hlen.
  rewrite filter_none in Hlen.
  - by apply nil_length_inv in Hlen as ->.
  - eapply Forall_impl; [exact Hnone |]. simpl. intros file Hf. congruence.
Qed.

Lemma no_footprints_no_effect_witness :
  main None "lib" false dir_no_footprints disk_two = Outcome 0 0 0 disk_two.
Proof.
  apply no_footprints_no_effect.
  apply (bool_decide_unpack _). vm_compute. exact I.
Defined.

(** The search on a tree with footprints at three depths. *)
Example find_footprint_files_nested :
  find_footprint_files "lib" dir_nested
  = ["lib/a.kicad_mod"; "lib/sub/b.kicad_mod"; "lib/sub/deep/c.kicad_mod"].
Proof. reflexivity. Qed.
